(** * The voice session of [src/App.tsx]

    A shallow embedding of the [App] component: its React state, its refs,
    the callbacks [stopRecording], [handleDataAvailable], [handleStop],
    [startListening] and [checkSilence], and the part of the browser they
    talk to (animation frames, timers, the media recorder, promises that are
    still pending).

    Conventions.
    - The event loop is single threaded: a callback runs to completion, and
      [Date.now()] reads one value [now] during it.
    - [handleStop] is cut at each of its suspension points (the file reader,
      [analyzeAudio], [generateSpeech], [decodeAudioData], playback); the
      continuation waiting at such a point is a [Task], and the event that
      settles it runs the next piece.
    - [startListening] runs within the click that issues it, the outcome of
      its three awaits being part of the click: sessions do not overlap.
    - Calls that leave the component ([alert], [playAmbient],
      [mediaRecorder.stop()], ...) are appended to a log, most recent first. *)

From Stdlib Require Import List ZArith QArith Bool String Lia Arith.
From Stdlib.Strings Require Import Byte.
From Stdlib Require Import Ascii.
From Stdlib Require Decimal Hexadecimal DecimalString DecimalPos DecimalZ.
Import ListNotations.
Local Open Scope Z_scope.

(** ** Data model *)

(** Modelled from the spec: [AppState] is declared in [./types], which is not
    part of the sources; its values are the four session states, the ones the
    component assigns and compares with. *)
Inductive AppState := idle | listening | processing | speaking.

(** Modelled from the spec: [CulturalMode], declared in [./types] as well, is
    a preference tag (['Universal'], ['VN'], ...), kept as the string. *)
Definition CulturalMode := string.

(** A [Blob] and an [ArrayBuffer] are the bytes they hold; the base64 text of
    a data URL is represented by the bytes it encodes. *)
Definition Blob := list byte.
Definition ArrayBuffer := list byte.

(** Modelled from the spec: [ZenResponse] is declared in [./types], which is
    not part of the sources; the component reads [emotion], [wisdom_vi] and
    the optional [breathing] descriptor. *)
Record ZenResponse := {
  emotion : string;
  wisdom_vi : string;
  breathing : option string
}.

(** [MediaRecorder.state]. *)
Inductive RecordingState := inactive | recording | paused.

(** A [MediaRecorder]: its state, and the [culturalMode] seen by the
    [handleStop] closure installed as its [onstop]. *)
Record MediaRecorder := {
  rec_state : RecordingState;
  onstop_mode : CulturalMode
}.

Inductive AudioContext := TheAudioContext.

Record AnalyserNode := { fftSize : nat }.

(** Continuations that wait for the browser or for a collaborator. *)
Inductive Task :=
| TRecorderStop (mode : CulturalMode)       (* stop() called: dataavailable, stop to come *)
| TReader (audioBlob : Blob) (mode : CulturalMode) (* readAsDataURL running *)
| TAnalyze                                  (* await analyzeAudio(...) *)
| TSynthesize                               (* await generateSpeech(...) *)
| TDecode                                   (* await decodeAudioData(...) *)
| TPlaying.                                 (* source started, onended set *)

(** Calls that leave the component. *)
Inductive Effect :=
| RecorderStart                             (* mediaRecorder.start() *)
| RecorderStop                              (* mediaRecorderRef.current.stop() *)
| StopAudio                                 (* stopAudio() *)
| AnalyzeAudio (base64Audio : Blob) (mode : CulturalMode)
| PlayAmbient (emo : string)
| StartBreathing (pattern : string)
| GenerateSpeech (text : string)
| SourceStart (buffer : ArrayBuffer)        (* source.start(0) *)
| ConsoleError
| Alert (msg : string).

(** The component ([state] to [animationFrameRef]) and the browser around it:
    the animation-frame callbacks and timers that are pending, the pending
    continuations and the log of calls. *)
Record State := {
  state : AppState;
  zenData : option ZenResponse;
  culturalMode : CulturalMode;
  mediaRecorderRef : option MediaRecorder;
  audioContextRef : option AudioContext;
  analyserRef : option AnalyserNode;
  audioChunksRef : list Blob;
  silenceTimerRef : option nat;
  lastSoundTimeRef : Z;
  animationFrameRef : option nat;
  frames : list nat;
  nextFrame : nat;
  timers : list nat;
  tasks : list Task;
  effects : list Effect
}.


Definition setState (v : AppState) (s : State) : State :=
  {| state := v; zenData := zenData s; culturalMode := culturalMode s;
     mediaRecorderRef := mediaRecorderRef s;
     audioContextRef := audioContextRef s; analyserRef := analyserRef s;
     audioChunksRef := audioChunksRef s;
     silenceTimerRef := silenceTimerRef s;
     lastSoundTimeRef := lastSoundTimeRef s;
     animationFrameRef := animationFrameRef s; frames := frames s;
     nextFrame := nextFrame s; timers := timers s; tasks := tasks s;
     effects := effects s |}.

Definition setZenData (v : option ZenResponse) (s : State) : State :=
  {| state := state s; zenData := v; culturalMode := culturalMode s;
     mediaRecorderRef := mediaRecorderRef s;
     audioContextRef := audioContextRef s; analyserRef := analyserRef s;
     audioChunksRef := audioChunksRef s;
     silenceTimerRef := silenceTimerRef s;
     lastSoundTimeRef := lastSoundTimeRef s;
     animationFrameRef := animationFrameRef s; frames := frames s;
     nextFrame := nextFrame s; timers := timers s; tasks := tasks s;
     effects := effects s |}.

Definition set_mediaRecorderRef (v : option MediaRecorder) (s : State) : State :=
  {| state := state s; zenData := zenData s; culturalMode := culturalMode s;
     mediaRecorderRef := v; audioContextRef := audioContextRef s;
     analyserRef := analyserRef s; audioChunksRef := audioChunksRef s;
     silenceTimerRef := silenceTimerRef s;
     lastSoundTimeRef := lastSoundTimeRef s;
     animationFrameRef := animationFrameRef s; frames := frames s;
     nextFrame := nextFrame s; timers := timers s; tasks := tasks s;
     effects := effects s |}.

Definition set_audioContextRef (v : option AudioContext) (s : State) : State :=
  {| state := state s; zenData := zenData s; culturalMode := culturalMode s;
     mediaRecorderRef := mediaRecorderRef s; audioContextRef := v;
     analyserRef := analyserRef s; audioChunksRef := audioChunksRef s;
     silenceTimerRef := silenceTimerRef s;
     lastSoundTimeRef := lastSoundTimeRef s;
     animationFrameRef := animationFrameRef s; frames := frames s;
     nextFrame := nextFrame s; timers := timers s; tasks := tasks s;
     effects := effects s |}.

Definition set_analyserRef (v : option AnalyserNode) (s : State) : State :=
  {| state := state s; zenData := zenData s; culturalMode := culturalMode s;
     mediaRecorderRef := mediaRecorderRef s;
     audioContextRef := audioContextRef s; analyserRef := v;
     audioChunksRef := audioChunksRef s;
     silenceTimerRef := silenceTimerRef s;
     lastSoundTimeRef := lastSoundTimeRef s;
     animationFrameRef := animationFrameRef s; frames := frames s;
     nextFrame := nextFrame s; timers := timers s; tasks := tasks s;
     effects := effects s |}.

Definition set_audioChunksRef (v : list Blob) (s : State) : State :=
  {| state := state s; zenData := zenData s; culturalMode := culturalMode s;
     mediaRecorderRef := mediaRecorderRef s;
     audioContextRef := audioContextRef s; analyserRef := analyserRef s;
     audioChunksRef := v; silenceTimerRef := silenceTimerRef s;
     lastSoundTimeRef := lastSoundTimeRef s;
     animationFrameRef := animationFrameRef s; frames := frames s;
     nextFrame := nextFrame s; timers := timers s; tasks := tasks s;
     effects := effects s |}.

Definition set_lastSoundTimeRef (v : Z) (s : State) : State :=
  {| state := state s; zenData := zenData s; culturalMode := culturalMode s;
     mediaRecorderRef := mediaRecorderRef s;
     audioContextRef := audioContextRef s; analyserRef := analyserRef s;
     audioChunksRef := audioChunksRef s;
     silenceTimerRef := silenceTimerRef s; lastSoundTimeRef := v;
     animationFrameRef := animationFrameRef s; frames := frames s;
     nextFrame := nextFrame s; timers := timers s; tasks := tasks s;
     effects := effects s |}.

Definition set_animationFrameRef (v : option nat) (s : State) : State :=
  {| state := state s; zenData := zenData s; culturalMode := culturalMode s;
     mediaRecorderRef := mediaRecorderRef s;
     audioContextRef := audioContextRef s; analyserRef := analyserRef s;
     audioChunksRef := audioChunksRef s;
     silenceTimerRef := silenceTimerRef s;
     lastSoundTimeRef := lastSoundTimeRef s; animationFrameRef := v;
     frames := frames s; nextFrame := nextFrame s; timers := timers s;
     tasks := tasks s; effects := effects s |}.

Definition set_frames (v : list nat) (s : State) : State :=
  {| state := state s; zenData := zenData s; culturalMode := culturalMode s;
     mediaRecorderRef := mediaRecorderRef s;
     audioContextRef := audioContextRef s; analyserRef := analyserRef s;
     audioChunksRef := audioChunksRef s;
     silenceTimerRef := silenceTimerRef s;
     lastSoundTimeRef := lastSoundTimeRef s;
     animationFrameRef := animationFrameRef s; frames := v;
     nextFrame := nextFrame s; timers := timers s; tasks := tasks s;
     effects := effects s |}.

Definition set_nextFrame (v : nat) (s : State) : State :=
  {| state := state s; zenData := zenData s; culturalMode := culturalMode s;
     mediaRecorderRef := mediaRecorderRef s;
     audioContextRef := audioContextRef s; analyserRef := analyserRef s;
     audioChunksRef := audioChunksRef s;
     silenceTimerRef := silenceTimerRef s;
     lastSoundTimeRef := lastSoundTimeRef s;
     animationFrameRef := animationFrameRef s; frames := frames s;
     nextFrame := v; timers := timers s; tasks := tasks s;
     effects := effects s |}.

Definition set_timers (v : list nat) (s : State) : State :=
  {| state := state s; zenData := zenData s; culturalMode := culturalMode s;
     mediaRecorderRef := mediaRecorderRef s;
     audioContextRef := audioContextRef s; analyserRef := analyserRef s;
     audioChunksRef := audioChunksRef s;
     silenceTimerRef := silenceTimerRef s;
     lastSoundTimeRef := lastSoundTimeRef s;
     animationFrameRef := animationFrameRef s; frames := frames s;
     nextFrame := nextFrame s; timers := v; tasks := tasks s;
     effects := effects s |}.

Definition set_tasks (v : list Task) (s : State) : State :=
  {| state := state s; zenData := zenData s; culturalMode := culturalMode s;
     mediaRecorderRef := mediaRecorderRef s;
     audioContextRef := audioContextRef s; analyserRef := analyserRef s;
     audioChunksRef := audioChunksRef s;
     silenceTimerRef := silenceTimerRef s;
     lastSoundTimeRef := lastSoundTimeRef s;
     animationFrameRef := animationFrameRef s; frames := frames s;
     nextFrame := nextFrame s; timers := timers s; tasks := v;
     effects := effects s |}.

Definition set_effects (v : list Effect) (s : State) : State :=
  {| state := state s; zenData := zenData s; culturalMode := culturalMode s;
     mediaRecorderRef := mediaRecorderRef s;
     audioContextRef := audioContextRef s; analyserRef := analyserRef s;
     audioChunksRef := audioChunksRef s;
     silenceTimerRef := silenceTimerRef s;
     lastSoundTimeRef := lastSoundTimeRef s;
     animationFrameRef := animationFrameRef s; frames := frames s;
     nextFrame := nextFrame s; timers := timers s; tasks := tasks s;
     effects := v |}.

(** ** Constants *)

Definition SILENCE_THRESHOLD : Z := 15.
Definition SILENCE_DURATION : Z := 2000.

(** ** Browser operations *)

(** JavaScript truthiness of a [number | null] ref: [null] and [0] are
    falsy. *)
Definition truthy (r : option nat) : option nat :=
  match r with
  | Some (S n) => Some (S n)
  | _ => None
  end.

Definition log (e : Effect) (s : State) : State :=
  set_effects (e :: effects s) s.

(** [requestAnimationFrame(cb)]: a handle greater than zero, not used
    before; the callback becomes pending. *)
Definition requestAnimationFrame (s : State) : nat * State :=
  let id := S (nextFrame s) in
  (id, set_nextFrame id (set_frames (frames s ++ [id]) s)).

Definition cancelAnimationFrame (id : nat) (s : State) : State :=
  set_frames (filter (fun i => negb (Nat.eqb i id)) (frames s)) s.

Definition clearTimeout (id : nat) (s : State) : State :=
  set_timers (filter (fun i => negb (Nat.eqb i id)) (timers s)) s.

(** [analyser.frequencyBinCount] is half of [fftSize]. *)
Definition frequencyBinCount (a : AnalyserNode) : nat := Nat.div2 (fftSize a).

Definition to_uint8 (x : Z) : Z := Z.max 0 (Z.min 255 x).

(** [new Uint8Array(n)] filled by [getByteFrequencyData]: [n] bytes, one per
    bin, zero where the node has nothing to report. *)
Definition getByteFrequencyData (a : AnalyserNode) (signal : list Z) : list Z :=
  let n := frequencyBinCount a in
  firstn n (map to_uint8 signal ++ repeat 0 n).

(** [dataArray.reduce((a, b) => a + b)]: no initial value, the first element
    starts the sum. On an empty array JavaScript throws; a browser keeps
    [fftSize] a power of two from 32 up, so that the array, of
    [frequencyBinCount] entries (32 for the [fftSize] of 64 the component
    sets), is never empty, and [0] stands for the case that does not arise. *)
Definition reduce_add (dataArray : list Z) : Z :=
  match dataArray with
  | [] => 0
  | x :: rest => fold_left Z.add rest x
  end.

(** [reduce(...) / dataArray.length]. The sum is an integer below 2^53 and
    the length a power of two, so the floating-point quotient is the exact
    rational. *)
Definition average (dataArray : list Z) : Q :=
  inject_Z (reduce_add dataArray) / inject_Z (Z.of_nat (List.length dataArray)).

(** [average > SILENCE_THRESHOLD]. *)
Definition loud (dataArray : list Z) : bool :=
  negb (Qle_bool (average dataArray) (inject_Z SILENCE_THRESHOLD)).

(** ** Completions: [try { ... } catch { ... }] *)

Inductive Completion :=
| Normal (s : State)
| Throw (s : State).

Definition bind (c : Completion) (k : State -> Completion) : Completion :=
  match c with
  | Normal s => k s
  | Throw s => Throw s
  end.

Definition try_catch (c : Completion) (handler : State -> State) : State :=
  match c with
  | Normal s => s
  | Throw s => handler s
  end.

Notation "s <- c ;; k" := (bind c (fun s => k))
  (at level 61, c at next level, right associativity).

(** ** The callbacks of the component *)

(** Lines 49-61. [resume_rejects]: the context is suspended and [resume()]
    rejects. *)
Definition initWebAudio (resume_rejects : bool) (s : State) : Completion :=
  let s1 := match audioContextRef s with
            | None => set_audioContextRef (Some TheAudioContext) s
            | Some _ => s
            end in
  if resume_rejects then Throw s1
  else Normal (match analyserRef s1 with
               | None => set_analyserRef (Some {| fftSize := 64 |}) s1
               | Some _ => s1
               end).

(** [mediaRecorderRef.current.stop()]: the recorder is inactive at once, and
    the browser queues the task that fires [dataavailable] and then [stop]. *)
Definition recorder_stop (r : MediaRecorder) (s : State) : State :=
  log RecorderStop
    (set_tasks (tasks s ++ [TRecorderStop (onstop_mode r)])
       (set_mediaRecorderRef
          (Some {| rec_state := inactive; onstop_mode := onstop_mode r |}) s)).

(** Lines 63-70. *)
Definition stopRecording (s : State) : State :=
  let s1 := match mediaRecorderRef s with
            | Some r =>
                match rec_state r with
                | inactive => s
                | _ => setState processing (recorder_stop r s)
                end
            | None => s
            end in
  let s2 := match truthy (animationFrameRef s1) with
            | Some id => cancelAnimationFrame id s1
            | None => s1
            end in
  match truthy (silenceTimerRef s2) with
  | Some id => clearTimeout id s2
  | None => s2
  end.

(** Lines 72-74; [event.data.size] is the number of bytes. *)
Definition handleDataAvailable (data : Blob) (s : State) : State :=
  match data with
  | [] => s
  | _ :: _ => set_audioChunksRef (audioChunksRef s ++ [data]) s
  end.

(** Lines 76-80 and 110: the blob is the concatenation of the chunks at this
    moment, and the reader starts on it. Nothing here throws on a fresh blob
    and a fresh reader, so the outer [catch] has no run. *)
Definition handleStop (mode : CulturalMode) (s : State) : State :=
  let audioBlob : Blob := List.concat (audioChunksRef s) in
  set_tasks (tasks s ++ [TReader audioBlob mode]) s.

(** Lines 104-108. *)
Definition zenMasterUnreachable (s : State) : State :=
  log (Alert "Could not connect to Zen Master."%string)
    (setState idle (log ConsoleError s)).

(** Lines 81-85: [reader.onloadend] up to the call of [analyzeAudio].
    [result = None] is a [reader.result] of [null]: [split] throws outside
    the inner [try], the promise of the callback rejects and nothing else
    happens. *)
Definition onloadend (result : option Blob) (mode : CulturalMode)
    (s : State) : State :=
  match result with
  | None => s
  | Some base64Audio =>
      set_tasks (tasks s ++ [TAnalyze])
        (log (AnalyzeAudio base64Audio mode) s)
  end.

(** Lines 85-92: from the outcome of [analyzeAudio] to the call of
    [generateSpeech]. *)
Definition afterAnalyze (outcome : option ZenResponse) (s : State) : State :=
  match outcome with
  | Some analysis =>
      let s1 := setZenData (Some analysis) s in
      let s2 := log (PlayAmbient (emotion analysis)) s1 in
      let s3 := match breathing analysis with
                | Some pattern => log (StartBreathing pattern) s2
                | None => s2
                end in
      set_tasks (tasks s3 ++ [TSynthesize])
        (log (GenerateSpeech (wisdom_vi analysis)) s3)
  | None => zenMasterUnreachable s
  end.

(** Lines 92-96: from the outcome of [generateSpeech] to the call of
    [decodeAudioData]. *)
Definition afterSynthesize (outcome : option ArrayBuffer) (s : State) : State :=
  match outcome with
  | Some audioBuffer =>
      let s1 := setState speaking s in
      match audioContextRef s1, analyserRef s1 with
      | Some _, Some _ => set_tasks (tasks s1 ++ [TDecode]) s1
      | _, _ => s1
      end
  | None => zenMasterUnreachable s
  end.

(** Lines 96-102: from the outcome of [decodeAudioData] to [source.start(0)];
    [None] is a rejection. The two [connect] calls wire the audio graph and
    leave the component as it is. *)
Definition afterDecode (outcome : option ArrayBuffer) (s : State) : State :=
  match outcome with
  | Some buffer =>
      log (SourceStart buffer) (set_tasks (tasks s ++ [TPlaying]) s)
  | None => zenMasterUnreachable s
  end.

(** Line 101: [source.onended]. *)
Definition onended (s : State) : State := setState idle s.

(** Lines 140-149. *)
Definition checkSilence (now : Z) (signal : list Z) (s : State) : State :=
  match analyserRef s with
  | None => s
  | Some a =>
      let dataArray := getByteFrequencyData a signal in
      let s1 := if loud dataArray then set_lastSoundTimeRef now s else s in
      if now - lastSoundTimeRef s1 >? SILENCE_DURATION then stopRecording s1
      else
        let (id, s2) := requestAnimationFrame s1 in
        set_animationFrameRef (Some id) s2
  end.

(** What the awaits of [startListening] come to. *)
Inductive StartOutcome :=
| ResumeRejected      (* audioContext.resume() rejects *)
| InitAudioRejected   (* initAudio() rejects *)
| MicDenied           (* getUserMedia rejects *)
| MicGranted.

Definition initAudio (o : StartOutcome) (s : State) : Completion :=
  match o with
  | InitAudioRejected => Throw s
  | _ => Normal s
  end.

Definition getUserMedia (o : StartOutcome) (s : State) : Completion :=
  match o with
  | MicDenied => Throw s
  | _ => Normal s
  end.

Definition is_ResumeRejected (o : StartOutcome) : bool :=
  match o with
  | ResumeRejected => true
  | _ => false
  end.

(** Lines 127-150, after the stream is there. [source.connect] wires the
    audio graph and leaves the component as it is. *)
Definition beginCapture (now : Z) (signal : list Z) (s : State) : State :=
  let mediaRecorder :=
    {| rec_state := inactive; onstop_mode := culturalMode s |} in
  let s1 := set_mediaRecorderRef (Some mediaRecorder) s in
  let s2 := set_audioChunksRef [] s1 in
  let s3 := log RecorderStart
              (set_mediaRecorderRef
                 (Some {| rec_state := recording;
                          onstop_mode := onstop_mode mediaRecorder |}) s2) in
  let s4 := setState listening s3 in
  let s5 := setZenData None s4 in
  let s6 := log StopAudio s5 in
  let s7 := set_lastSoundTimeRef now s6 in
  checkSilence now signal s7.

(** Lines 117-155. *)
Definition startListening (o : StartOutcome) (now : Z) (signal : list Z)
    (s : State) : State :=
  try_catch
    (s1 <- initWebAudio (is_ResumeRejected o) s ;;
     s2 <- initAudio o s1 ;;
     s3 <- getUserMedia o s2 ;;
     Normal (beginCapture now signal s3))
    (fun s' => setState idle (log (Alert "Microphone access required."%string) s')).

(** Line 195: the [onClick] of the voice button. *)
Definition onClick (o : StartOutcome) (now : Z) (signal : list Z)
    (s : State) : State :=
  match state s with
  | idle => startListening o now signal s
  | _ => stopRecording s
  end.

(** ** The event loop *)

Inductive Event :=
| Click (o : StartOutcome) (now : Z) (signal : list Z)
| Frame (id : nat) (now : Z) (signal : list Z)  (* a pending frame fires *)
| RecorderStopped (data : Blob)    (* dataavailable, then stop *)
| LoadEnd (result_ok : bool)       (* reader.onloadend *)
| AnalyzeSettled (outcome : option ZenResponse)
| SynthesizeSettled (outcome : option ArrayBuffer)
| DecodeSettled (outcome : option ArrayBuffer)
| PlaybackEnded.

(** The first pending task that [p] accepts, and the others. *)
Fixpoint take_task (p : Task -> bool) (ts : list Task)
    : option (Task * list Task) :=
  match ts with
  | [] => None
  | t :: rest =>
      if p t then Some (t, rest)
      else match take_task p rest with
           | Some (t', rest') => Some (t', t :: rest')
           | None => None
           end
  end.

Definition is_TRecorderStop t := match t with TRecorderStop _ => true | _ => false end.
Definition is_TReader t := match t with TReader _ _ => true | _ => false end.
Definition is_TAnalyze t := match t with TAnalyze => true | _ => false end.
Definition is_TSynthesize t := match t with TSynthesize => true | _ => false end.
Definition is_TDecode t := match t with TDecode => true | _ => false end.
Definition is_TPlaying t := match t with TPlaying => true | _ => false end.

(** One turn of the event loop; [None] when the browser cannot deliver the
    event (no such frame or continuation is pending). *)
Definition step (e : Event) (s : State) : option State :=
  match e with
  | Click o now signal => Some (onClick o now signal s)
  | Frame id now signal =>
      if existsb (Nat.eqb id) (frames s)
      then Some (checkSilence now signal
                   (set_frames (filter (fun i => negb (Nat.eqb i id)) (frames s)) s))
      else None
  | RecorderStopped data =>
      match take_task is_TRecorderStop (tasks s) with
      | Some (TRecorderStop mode, rest) =>
          Some (handleStop mode (handleDataAvailable data (set_tasks rest s)))
      | _ => None
      end
  | LoadEnd result_ok =>
      match take_task is_TReader (tasks s) with
      | Some (TReader audioBlob mode, rest) =>
          Some (onloadend (if result_ok then Some audioBlob else None) mode
                  (set_tasks rest s))
      | _ => None
      end
  | AnalyzeSettled outcome =>
      match take_task is_TAnalyze (tasks s) with
      | Some (_, rest) => Some (afterAnalyze outcome (set_tasks rest s))
      | None => None
      end
  | SynthesizeSettled outcome =>
      match take_task is_TSynthesize (tasks s) with
      | Some (_, rest) => Some (afterSynthesize outcome (set_tasks rest s))
      | None => None
      end
  | DecodeSettled outcome =>
      match take_task is_TDecode (tasks s) with
      | Some (_, rest) => Some (afterDecode outcome (set_tasks rest s))
      | None => None
      end
  | PlaybackEnded =>
      match take_task is_TPlaying (tasks s) with
      | Some (_, rest) => Some (onended (set_tasks rest s))
      | None => None
      end
  end.

Fixpoint run (evs : list Event) (s : State) : option State :=
  match evs with
  | [] => Some s
  | e :: rest =>
      match step e s with
      | Some s' => run rest s'
      | None => None
      end
  end.

(** The component as mounted: [useState] and [useRef] initial values. *)
Definition init : State :=
  {| state := idle; zenData := None; culturalMode := "Universal"%string;
     mediaRecorderRef := None; audioContextRef := None; analyserRef := None;
     audioChunksRef := []; silenceTimerRef := None; lastSoundTimeRef := 0;
     animationFrameRef := None; frames := []; nextFrame := 0; timers := [];
     tasks := []; effects := [] |}.

Definition reachable (s : State) : Prop :=
  exists evs, run evs init = Some s.

(** ** Observations *)

Definition is_Alert (e : Effect) := match e with Alert _ => true | _ => false end.
Definition is_SourceStart (e : Effect) := match e with SourceStart _ => true | _ => false end.
Definition is_RecorderStop (e : Effect) := match e with RecorderStop => true | _ => false end.
Definition is_RecorderStart (e : Effect) := match e with RecorderStart => true | _ => false end.

Definition count (p : Effect -> bool) (s : State) : nat :=
  List.length (filter p (effects s)).

(** Notices shown to the user, playbacks started, and calls of the
    recorder's [start()] and [stop()], so far. *)
Definition alerts (s : State) : nat := count is_Alert s.
Definition playbacks (s : State) : nat := count is_SourceStart s.
Definition stop_calls (s : State) : nat := count is_RecorderStop s.
Definition start_calls (s : State) : nat := count is_RecorderStart s.

(** The guard of [stopRecording]: there is a recorder and its state is not
    ['inactive']. *)
Definition device_active (s : State) : bool :=
  match mediaRecorderRef s with
  | Some r => match rec_state r with inactive => false | _ => true end
  | None => false
  end.

Definition is_Frame (e : Event) : bool :=
  match e with Frame _ _ _ => true | _ => false end.

Definition is_Click (e : Event) : bool :=
  match e with Click _ _ _ => true | _ => false end.

(** ** Invariant of the reachable states *)

Definition capture_task (t : Task) : bool :=
  match t with
  | TRecorderStop _ | TReader _ _ | TAnalyze | TSynthesize => true
  | _ => false
  end.

Definition playback_task (t : Task) : bool :=
  match t with
  | TDecode | TPlaying => true
  | _ => false
  end.

Definition the_analyser : AnalyserNode := {| fftSize := 64 |}.

(** The pending work of each session state: a recorder that records and one
    frame, the one in [animationFrameRef], while [listening]; at most one
    continuation of [handleStop] while [processing]; the decode or the
    playback while [speaking]. *)
Definition phase_inv (s : State) : Prop :=
  match state s with
  | idle => tasks s = [] /\ frames s = [] /\ device_active s = false
  | listening =>
      tasks s = [] /\ device_active s = true /\
      exists id, frames s = [S id] /\ animationFrameRef s = Some (S id)
  | processing =>
      frames s = [] /\ device_active s = false /\
      (tasks s = [] \/ exists t, tasks s = [t] /\ capture_task t = true)
  | speaking =>
      frames s = [] /\ device_active s = false /\
      exists t, tasks s = [t] /\ playback_task t = true
  end.

(** What every reachable state satisfies: [silenceTimerRef] is never
    assigned and the component sets no timer; the analyser, once created, is
    the one of [initWebAudio]; outside [idle] the audio context and the
    analyser exist; each session state comes with its pending work; and every
    recorder started has been stopped, except the one that is recording. *)
Record Inv (s : State) : Prop := {
  inv_timer : silenceTimerRef s = None;
  inv_timers : timers s = [];
  inv_analyser : analyserRef s = None \/ analyserRef s = Some the_analyser;
  inv_audio :
    state s <> idle ->
    audioContextRef s = Some TheAudioContext /\ analyserRef s = Some the_analyser;
  inv_phase : phase_inv s;
  inv_calls :
    (stop_calls s + (if device_active s then 1 else 0) = start_calls s)%nat
}.

(** ** The ticks of a listening phase *)

(** The amplitude snapshot the detector reads from a signal. *)
Definition sample (signal : list Z) : list Z :=
  getByteFrequencyData the_analyser signal.

(** The time and the signal of each animation frame delivered. *)
Definition ticks_of (evs : list Event) : list (Z * list Z) :=
  flat_map (fun e => match e with
                     | Frame _ now signal => [(now, signal)]
                     | _ => []
                     end) evs.

(** The time of the last tick whose mean amplitude was above the threshold,
    and [t0], the start of the phase, when there was none. *)
Definition last_sound (t0 : Z) (ticks : list (Z * list Z)) : Z :=
  fold_left (fun t tick => if loud (sample (snd tick)) then fst tick else t)
    ticks t0.

(** Clock readings that never go back. *)
Fixpoint nondecreasing (ts : list Z) : bool :=
  match ts with
  | a :: (b :: _) as rest => (a <=? b) && nondecreasing rest
  | _ => true
  end.

(** ** Shapes of runs *)

(** What can happen between a start and the end of capture: frames and
    clicks. *)
Definition capture_event (e : Event) : bool := is_Frame e || is_Click e.

Definition not_Click (e : Event) : bool := negb (is_Click e).

Definition busy (s : State) : bool :=
  match state s with
  | processing | speaking => true
  | _ => false
  end.

(** [chain] runs from [s] through busy states only. *)
Fixpoint busy_run (chain : list Event) (s : State) : bool :=
  busy s &&
  match chain with
  | [] => true
  | e :: rest =>
      match step e s with
      | Some s' => busy_run rest s'
      | None => false
      end
  end.

(** Between a successful start and the end of capture: listening, or
    processing with the recorder's stop task still to come; no notice, no
    playback, no stored result and no chunk since the start. *)
Definition capturing (a p : nat) (s : State) : Prop :=
  alerts s = a /\ playbacks s = p /\ zenData s = None /\
  audioChunksRef s = [] /\
  (state s = listening \/
   (state s = processing /\ exists m, tasks s = [TRecorderStop m])).

(** The effect log only grows. *)
Definition grows (s s' : State) : Prop :=
  exists l, effects s' = l ++ effects s.

(** [speaking] with nothing pending that could end it. *)
Definition stuck_speaking (ef : list Effect) (s : State) : Prop :=
  state s = speaking /\ tasks s = [] /\ frames s = [] /\
  device_active s = false /\ effects s = ef.

(** ** Sample runs *)

(** A click on the voice button, the microphone being granted if it starts
    a session. *)
Definition press (now : Z) : Event := Click MicGranted now [].

Definition state_after (evs : list Event) : State :=
  match run evs init with
  | Some s => s
  | None => init
  end.

Definition calm : ZenResponse :=
  {| emotion := "calm"; wisdom_vi := "Tho vao, tho ra.";
     breathing := Some "4-7-8"%string |}.

Definition chunk_a : Blob := [x01; x02].
Definition speech : ArrayBuffer := [x10; x11].

(** A session up to the end of capture, and a whole successful cycle. *)
Definition capture : list Event := [press 0; press 500].

Definition cycle_a : list Event :=
  capture ++ [RecorderStopped chunk_a; LoadEnd true; AnalyzeSettled (Some calm);
              SynthesizeSettled (Some speech); DecodeSettled (Some speech);
              PlaybackEnded].


(** Waiting for [generateSpeech] with no audio context. *)
Definition mute : State :=
  set_audioContextRef None
    (state_after (capture ++ [RecorderStopped chunk_a; LoadEnd true;
                              AnalyzeSettled (Some calm)])).

(** ** Further observations of the session *)


(** The audio context and the analyser of [s] are still those of [s']. *)
Definition audio_graph_kept (s s' : State) : Prop :=
  (forall c, audioContextRef s = Some c -> audioContextRef s' = Some c) /\
  (forall a, analyserRef s = Some a -> analyserRef s' = Some a).

(** [dataavailable] delivered for each blob of [datas] in turn. *)
Definition deliver (datas : list Blob) (s : State) : State :=
  fold_left (fun s' data => handleDataAvailable data s') datas s.

(** [data.size > 0]. *)
Definition nonempty (data : Blob) : bool :=
  match data with [] => false | _ :: _ => true end.

(** A tick whose sample is above the threshold. *)
Definition loud_frame (e : Event) : bool :=
  match e with
  | Frame _ _ signal => loud (sample signal)
  | _ => false
  end.

(** The last of [ts], and [d] when there is none. *)
Fixpoint last_or (d : Z) (ts : list Z) : Z :=
  match ts with
  | [] => d
  | t :: rest => last_or t rest
  end.



(** The mode a pending continuation of [handleStop] will pass to
    [analyzeAudio]: the one of the closure installed as [onstop]. *)
Definition task_mode (t : Task) : option CulturalMode :=
  match t with
  | TRecorderStop m | TReader _ m => Some m
  | _ => None
  end.

(** Every closure of [handleStop] that can still run, installed on the
    recorder or pending as a task, holds the mode [m0]. *)
Definition session_mode (m0 : CulturalMode) (s : State) : Prop :=
  (forall r, mediaRecorderRef s = Some r -> onstop_mode r = m0) /\
  (forall t m, In t (tasks s) -> task_mode t = Some m -> m = m0).

Definition analyses_with (m0 : CulturalMode) (l : list Effect) : Prop :=
  forall b m, In (AnalyzeAudio b m) l -> m = m0.

(** What [s'] has logged since [s] asks for analyses in mode [m0] only. *)
Definition logs_with (m0 : CulturalMode) (s s' : State) : Prop :=
  exists l, effects s' = l ++ effects s /\ analyses_with m0 l.

(** The calls logged by a capture phase that started with the log [e0]. *)
Definition capture_log (e0 : list Effect) (s : State) : Prop :=
  (state s = listening /\ effects s = StopAudio :: RecorderStart :: e0) \/
  (state s = processing /\
   effects s = RecorderStop :: StopAudio :: RecorderStart :: e0).

(** What a callback of the session leaves as it is: the mode, and, as long
    as [silenceTimerRef] holds no handle, the pending timers. *)
Definition kept_by_session (s s' : State) : Prop :=
  culturalMode s' = culturalMode s /\
  silenceTimerRef s' = silenceTimerRef s /\
  (silenceTimerRef s = None -> timers s' = timers s).


(** ** The preference cache and the toast (lines 20 and 30-47) *)

(** Strings of [localStorage] and of the toast are UTF-8 text, one [ascii]
    per byte. *)

(** [localStorage]: keys with their values. *)
Definition Storage := list (string * string).

Fixpoint getItem (key : string) (st : Storage) : option string :=
  match st with
  | [] => None
  | (k, v) :: rest => if String.eqb k key then Some v else getItem key rest
  end.

Fixpoint setItem (key value : string) (st : Storage) : Storage :=
  match st with
  | [] => [(key, value)]
  | (k, v) :: rest =>
      if String.eqb k key then (k, value) :: rest
      else (k, v) :: setItem key value rest
  end.

(** [n.toString()] of an integer [n]: its decimal digits, after a minus sign
    when it is negative (below 10^21 in absolute value, where JavaScript
    turns to the exponent form; a time in milliseconds is far below). *)
Definition toString (n : Z) : string :=
  DecimalString.NilZero.string_of_int (Z.to_int n).

Definition byte_in (c : ascii) (codes : list nat) : bool :=
  existsb (Nat.eqb (nat_of_ascii c)) codes.

(** White space and line terminators of one, two and three bytes: TAB, LF,
    VT, FF, CR, SP; U+00A0; U+1680, U+2000 to U+200A, U+2028, U+2029, U+202F,
    U+205F, U+3000 and U+FEFF. *)
Definition ws1 (c1 : ascii) : bool := byte_in c1 [9; 10; 11; 12; 13; 32]%nat.

Definition ws2 (c1 c2 : ascii) : bool :=
  byte_in c1 [194]%nat && byte_in c2 [160]%nat.

Definition ws3 (c1 c2 c3 : ascii) : bool :=
  (byte_in c1 [225]%nat && byte_in c2 [154]%nat && byte_in c3 [128]%nat) ||
  (byte_in c1 [226]%nat && byte_in c2 [128]%nat &&
   byte_in c3 [128; 129; 130; 131; 132; 133; 134; 135; 136; 137; 138;
               168; 169; 175]%nat) ||
  (byte_in c1 [226]%nat && byte_in c2 [129]%nat && byte_in c3 [159]%nat) ||
  (byte_in c1 [227]%nat && byte_in c2 [128]%nat && byte_in c3 [128]%nat) ||
  (byte_in c1 [239]%nat && byte_in c2 [187]%nat && byte_in c3 [191]%nat).

(** [TrimString(s, start)]. *)
Fixpoint trimStart (s : string) : string :=
  match s with
  | String c1 r1 =>
      if ws1 c1 then trimStart r1
      else
        match r1 with
        | String c2 r2 =>
            if ws2 c1 c2 then trimStart r2
            else
              match r2 with
              | String c3 r3 => if ws3 c1 c2 c3 then trimStart r3 else s
              | EmptyString => s
              end
        | EmptyString => s
        end
  | EmptyString => s
  end.

(** The longest prefix of decimal digits. *)
Fixpoint dec_prefix (s : string) : Decimal.uint :=
  match s with
  | String c r =>
      match DecimalString.uint_of_char c (Some (dec_prefix r)) with
      | Some d => d
      | None => Decimal.Nil
      end
  | EmptyString => Decimal.Nil
  end.

Definition hex_digit (c : ascii)
    : option (Hexadecimal.uint -> Hexadecimal.uint) :=
  let n := nat_of_ascii c in
  if Nat.eqb n 48 then Some Hexadecimal.D0
  else if Nat.eqb n 49 then Some Hexadecimal.D1
  else if Nat.eqb n 50 then Some Hexadecimal.D2
  else if Nat.eqb n 51 then Some Hexadecimal.D3
  else if Nat.eqb n 52 then Some Hexadecimal.D4
  else if Nat.eqb n 53 then Some Hexadecimal.D5
  else if Nat.eqb n 54 then Some Hexadecimal.D6
  else if Nat.eqb n 55 then Some Hexadecimal.D7
  else if Nat.eqb n 56 then Some Hexadecimal.D8
  else if Nat.eqb n 57 then Some Hexadecimal.D9
  else if Nat.eqb n 97 || Nat.eqb n 65 then Some Hexadecimal.Da
  else if Nat.eqb n 98 || Nat.eqb n 66 then Some Hexadecimal.Db
  else if Nat.eqb n 99 || Nat.eqb n 67 then Some Hexadecimal.Dc
  else if Nat.eqb n 100 || Nat.eqb n 68 then Some Hexadecimal.Dd
  else if Nat.eqb n 101 || Nat.eqb n 69 then Some Hexadecimal.De
  else if Nat.eqb n 102 || Nat.eqb n 70 then Some Hexadecimal.Df
  else None.

(** The longest prefix of hexadecimal digits, of either case. *)
Fixpoint hex_prefix (s : string) : Hexadecimal.uint :=
  match s with
  | String c r =>
      match hex_digit c with
      | Some digit => digit (hex_prefix r)
      | None => Hexadecimal.Nil
      end
  | EmptyString => Hexadecimal.Nil
  end.

(** [parseInt(s)] with no radix; [None] is [NaN]. Leading white space goes,
    then a sign, then [0x] or [0X], which makes the radix 16; the digits
    that follow are read up to the first character that is none, and [NaN]
    is the result when there is no digit. The integer is exact here; the
    component compares it with a time below 2^53, and rounding to a double
    does not change the outcome of that comparison. *)
Definition parseInt (s : string) : option Z :=
  let s1 := trimStart s in
  let (sign, s2) :=
    match s1 with
    | String c r =>
        if byte_in c [45]%nat then (-1, r)
        else if byte_in c [43]%nat then (1, r)
        else (1, s1)
    | EmptyString => (1, s1)
    end in
  match s2 with
  | String c1 (String c2 r) =>
      if byte_in c1 [48]%nat && byte_in c2 [120; 88]%nat then
        match hex_prefix r with
        | Hexadecimal.Nil => None
        | d => Some (sign * Z.of_hex_uint d)
        end
      else
        match dec_prefix s2 with
        | Decimal.Nil => None
        | d => Some (sign * Z.of_uint d)
        end
  | _ =>
      match dec_prefix s2 with
      | Decimal.Nil => None
      | d => Some (sign * Z.of_uint d)
      end
  end.

(** The page: the session, the toast, [localStorage], and the last handle
    [setTimeout] gave. The timers that are pending are the [timers] of the
    session state. *)
Record Page := {
  session : State;
  toast : option string;
  localStorage : Storage;
  nextTimeout : nat
}.

Definition set_culturalMode (v : CulturalMode) (s : State) : State :=
  {| state := state s; zenData := zenData s; culturalMode := v;
     mediaRecorderRef := mediaRecorderRef s;
     audioContextRef := audioContextRef s; analyserRef := analyserRef s;
     audioChunksRef := audioChunksRef s;
     silenceTimerRef := silenceTimerRef s;
     lastSoundTimeRef := lastSoundTimeRef s;
     animationFrameRef := animationFrameRef s; frames := frames s;
     nextFrame := nextFrame s; timers := timers s; tasks := tasks s;
     effects := effects s |}.

Definition set_app (a : State) (p : Page) : Page :=
  {| session := a; toast := toast p; localStorage := localStorage p;
     nextTimeout := nextTimeout p |}.

Definition setToast (v : option string) (p : Page) : Page :=
  {| session := session p; toast := v; localStorage := localStorage p;
     nextTimeout := nextTimeout p |}.

Definition DAY : Z := 24 * 60 * 60 * 1000.

(** The text of the toast, line 44 and 45. *)
Definition toastText (mode : CulturalMode) (items : list string) : string :=
  let itemsText :=
    match items with
    | [] => EmptyString
    | _ :: _ => (": " ++ String.concat ", " (firstn 2 items))%string
    end in
  ("Phát hiện" ++ itemsText ++ " → Chế độ " ++ mode)%string.

(** Lines 39-47. [setItem] is taken not to throw: storage is available and
    not full. *)
Definition handleModeChange (mode : CulturalMode) (items : list string)
    (now : Z) (p : Page) : Page :=
  let a1 := set_culturalMode mode (session p) in
  let st1 := setItem "thay_ai_mode"%string mode (localStorage p) in
  let st2 := setItem "thay_ai_expire"%string (toString (now + DAY)) st1 in
  let id := S (nextTimeout p) in
  {| session := set_timers (timers a1 ++ [id]) a1;
     toast := Some (toastText mode items);
     localStorage := st2;
     nextTimeout := id |}.

(** Truthiness of a [string | null]. *)
Definition truthy_string (v : option string) : bool :=
  match v with
  | Some (String _ _) => true
  | _ => false
  end.

(** Lines 31-37, the effect run once when the component is mounted. *)
Definition loadCache (now : Z) (p : Page) : Page :=
  let cached := getItem "thay_ai_mode"%string (localStorage p) in
  let expire := getItem "thay_ai_expire"%string (localStorage p) in
  if truthy_string cached && truthy_string expire &&
     match expire with
     | Some e => match parseInt e with
                 | Some t => now <? t
                 | None => false
                 end
     | None => false
     end
  then match cached with
       | Some mode => set_app (set_culturalMode mode (session p)) p
       | None => p
       end
  else p.

(** The page once mounted at [now] over what [localStorage] holds. *)
Definition mount (now : Z) (storage : Storage) : Page :=
  loadCache now
    {| session := init; toast := None; localStorage := storage;
       nextTimeout := 0 |}.

(** Line 46, the callback of the timer. *)
Definition toastTimeout (p : Page) : Page := setToast None p.

Inductive PageEvent :=
| OfSession (e : Event)         (* an event of the voice session *)
| ModeChange (mode : CulturalMode) (items : list string) (now : Z)
| ToastTimeout (id : nat).      (* a pending timer fires *)

Definition page_step (e : PageEvent) (p : Page) : option Page :=
  match e with
  | OfSession e' =>
      match step e' (session p) with
      | Some a => Some (set_app a p)
      | None => None
      end
  | ModeChange mode items now => Some (handleModeChange mode items now p)
  | ToastTimeout id =>
      if existsb (Nat.eqb id) (timers (session p))
      then Some (toastTimeout
                   (set_app (set_timers
                      (filter (fun i => negb (Nat.eqb i id)) (timers (session p)))
                      (session p)) p))
      else None
  end.

Fixpoint page_run (evs : list PageEvent) (p : Page) : option Page :=
  match evs with
  | [] => Some p
  | e :: rest =>
      match page_step e p with
      | Some p' => page_run rest p'
      | None => None
      end
  end.

Definition page_reachable (p : Page) : Prop :=
  exists now storage evs, page_run evs (mount now storage) = Some p.

(** The last mode change of a run, with its time. *)
Definition last_change (evs : list PageEvent) : option (CulturalMode * Z) :=
  fold_left (fun acc e => match e with
                          | ModeChange mode _ now => Some (mode, now)
                          | _ => acc
                          end) evs None.

Definition is_ModeChange (e : PageEvent) : bool :=
  match e with ModeChange _ _ _ => true | _ => false end.

(** What [localStorage] holds after a mode change to [mode] at [now]. *)
Definition cache_holds (c : option (CulturalMode * Z)) (st : Storage) : Prop :=
  match c with
  | Some (mode, now) =>
      getItem "thay_ai_mode" st = Some mode /\
      getItem "thay_ai_expire" st = Some (toString (now + DAY))
  | None => True
  end.

(** What every page reached from [mount] satisfies: [silenceTimerRef] is
    never assigned, and a toast that is shown has a timer pending. *)
Definition page_inv (p : Page) : Prop :=
  silenceTimerRef (session p) = None /\
  (toast p <> None -> timers (session p) <> []).

Definition is_timeout_of (id : nat) (e : PageEvent) : bool :=
  match e with ToastTimeout i => Nat.eqb i id | _ => false end.

(** ** What is rendered *)






(** ** Sample runs of the page *)

(** A signal well above the threshold. *)
Definition voice : list Z := repeat 200 32.


(** The page mounted at time [0] over an empty storage, and what a run
    makes of it. *)
Definition fresh_page : Page := mount 0 [].

Definition page_after (evs : list PageEvent) : Page :=
  match page_run evs fresh_page with
  | Some p => p
  | None => fresh_page
  end.

(** The mode changes to ["VN"%string] while the utterance is captured. *)
Definition change_during_capture : list PageEvent :=
  [OfSession (press 0); ModeChange "VN"%string ["non la"%string] 300;
   OfSession (press 500); OfSession (RecorderStopped chunk_a);
   OfSession (LoadEnd true)].

(** * Proofs *)

(** ** Tactics *)

(** A state as its fifteen fields, a recorder ref by cases. *)
Ltac break_state s :=
  destruct s as [st zd cm mr ac an ch stm ls af fr nf tm tk ef].

Ltac break_recorder :=
  match goal with
  | mr : option MediaRecorder |- _ => destruct mr as [[[] ?]|]
  end.

Ltac unfold_obs :=
  unfold phase_inv, device_active, stop_calls, start_calls, count in *.

(** The hypotheses of a run that starts when capture has ended, on a state
    broken into its fields. *)
Ltac settle_chain HI Hp Hm Hch :=
  destruct HI as [Ht Hts Han Hau Hph Hc];
  destruct Hau as [Hac Hana]; [congruence|];
  unfold alerts, playbacks in *; unfold_obs;
  match goal with s : State |- _ => break_state s end;
  cbn in Ht, Hts, Han, Hac, Hana, Hph, Hc, Hp, Hm, Hch; subst;
  cbn in Hph; destruct Hph as (-> & Hda & _).

Ltac grows_by_cases :=
  repeat match goal with
         | |- context [match ?x with _ => _ end] => destruct x
         end;
  cbn;
  solve [ now exists [] | eexists [_]; reflexivity | eexists [_; _]; reflexivity
        | eexists [_; _; _]; reflexivity | eexists [_; _; _; _]; reflexivity ].

(** ** The invariant holds *)

Lemma Inv_init : Inv init.
Proof.
  constructor; cbn; auto. intros H; congruence.
Qed.

Lemma Inv_startListening o now signal s :
  Inv s -> state s = idle -> Inv (startListening o now signal s).
Proof.
  intros [Ht Hts Han Hau Hph Hc] Est.
  unfold phase_inv in Hph. rewrite Est in Hph. destruct Hph as (Htk & Hfr & Hda).
  unfold_obs.
  break_state s; cbn in *; subst.
  destruct o; unfold startListening, initWebAudio; cbn.
  - destruct ac; constructor; cbn; auto; try congruence.
  - destruct ac, Han as [-> | ->]; constructor; cbn; auto; try congruence.
  - destruct ac, Han as [-> | ->]; constructor; cbn; auto; try congruence.
  - destruct ac as [[]|], Han as [-> | ->]; unfold beginCapture, checkSilence; cbn.
    all: match goal with |- context [loud ?d] => destruct (loud d) end; cbn.
    all: rewrite ?Z.sub_diag; cbn.
    all: constructor; unfold_obs; cbn; auto.
    all: try (repeat split; eauto; fail).
    all: break_recorder; cbn in *; try discriminate; lia.
Qed.

Lemma Inv_stopRecording s :
  Inv s -> state s <> idle -> Inv (stopRecording s).
Proof.
  intros [Ht Hts Han Hau Hph Hc] Est.
  unfold_obs.
  break_state s; cbn in *; subst.
  unfold stopRecording; cbn.
  destruct st; try congruence.
  - destruct Hph as (Htk & Hda & id & Hfr & Haf); subst.
    break_recorder; cbn in *; try discriminate.
    all: constructor; unfold_obs; cbn; rewrite ?Nat.eqb_refl; cbn; auto.
    all: try (repeat split; eauto; fail).
    all: try lia.
  - destruct Hph as (Hfr & Hda & Htk); subst.
    break_recorder; cbn in *; try discriminate.
    all: destruct af as [[|k]|]; cbn.
    all: constructor; unfold_obs; cbn; auto.
  - destruct Hph as (Hfr & Hda & Htk); subst.
    break_recorder; cbn in *; try discriminate.
    all: destruct af as [[|k]|]; cbn.
    all: constructor; unfold_obs; cbn; auto.
Qed.

Lemma existsb_single id k :
  existsb (Nat.eqb id) [k] = true -> id = k.
Proof. cbn. rewrite orb_false_r. apply Nat.eqb_eq. Qed.

Lemma Inv_step e s s' : Inv s -> step e s = Some s' -> Inv s'.
Proof.
  intros HI Hs.
  destruct e; cbn in Hs.
  1: { (* Click *)
    injection Hs as <-. unfold onClick.
    destruct (state s) eqn:Est.
    + now apply Inv_startListening.
    + apply Inv_stopRecording; congruence.
    + apply Inv_stopRecording; congruence.
    + apply Inv_stopRecording; congruence. }
  1: { (* Frame *)
    destruct HI as [Ht Hts Han Hau Hph Hc].
    unfold_obs.
    break_state s; cbn in *; subst.
    destruct st.
    1,3,4: destruct Hph as (? & ? & ?); subst; cbn in *; try discriminate.
    destruct Hph as (Htk & Hda & k & Hfr & Haf); subst.
    destruct (existsb (Nat.eqb id) [S k]) eqn:Hex; try discriminate.
    apply existsb_single in Hex; subst id.
    cbn in Hs. rewrite Nat.eqb_refl in Hs. cbn in Hs.
    destruct Hau as [-> ->]; [congruence|].
    injection Hs as <-.
    unfold checkSilence; cbn.
    match goal with |- context [loud ?d] => destruct (loud d) end; cbn.
    all: match goal with |- context [?a >? ?b] => destruct (a >? b) end.
    all: unfold stopRecording; cbn.
    all: break_recorder; cbn in *; try discriminate.
    all: constructor; unfold_obs; cbn; auto.
    all: try (repeat split; eauto; fail).
    all: try lia. }
  all: destruct HI as [Ht Hts Han Hau Hph Hc].
  all: unfold_obs.
  all: break_state s; cbn in *; subst.
  all: destruct st.
  all: try (destruct Hph as (Htk & ? & ?); subst; cbn in *; discriminate).
  all: try (destruct Hph as (? & ? & [Htk | (t & Htk & Hct)]); subst;
            [cbn in *; discriminate | destruct t; cbn in *; try discriminate]).
  all: try (destruct Hph as (? & ? & (t & Htk & Hct)); subst;
            destruct t; cbn in *; try discriminate).
  all: injection Hs as <-.
  all: destruct Hau as [-> ->]; [congruence|].
  all: try destruct data; try destruct result_ok;
    try (destruct outcome as [r|]; [try destruct (breathing r) eqn:Hbr|]).
  all: unfold handleStop, handleDataAvailable, onloadend, afterAnalyze,
         afterSynthesize, afterDecode, onended, zenMasterUnreachable; cbn;
       rewrite ?Hbr; cbn.
  all: constructor; unfold_obs; cbn; auto; try congruence.
  all: try (repeat split; eauto; fail).
  all: try (repeat split; auto; right; eexists; split; [reflexivity|reflexivity]).
  all: try (repeat split; auto; eexists; split; [reflexivity|reflexivity]).
Qed.

Lemma Inv_run evs : forall s s', Inv s -> run evs s = Some s' -> Inv s'.
Proof.
  induction evs as [|e evs IH]; cbn; intros s s' HI Hr.
  - now injection Hr as <-.
  - destruct (step e s) as [s1|] eqn:Hs; [|discriminate].
    eapply IH; [|eassumption]. eapply Inv_step; eassumption.
Qed.

Lemma reachable_Inv s : reachable s -> Inv s.
Proof. intros [evs Hr]. eapply Inv_run; [apply Inv_init | eassumption]. Qed.

(** ** Runs *)

Lemma busy_run_busy chain s : busy_run chain s = true -> busy s = true.
Proof.
  destruct chain; cbn [busy_run]; intros H; apply andb_prop in H; tauto.
Qed.

Lemma run_app evs1 : forall evs2 s,
  run (evs1 ++ evs2) s =
  match run evs1 s with Some s1 => run evs2 s1 | None => None end.
Proof.
  induction evs1 as [|e evs1 IH]; cbn; intros evs2 s; [reflexivity|].
  destruct (step e s); [apply IH | reflexivity].
Qed.

(** ** Clicks that change nothing *)

(** With the recorder absent or inactive, no frame is pending and
    [stopRecording] returns the state it was given. *)
Lemma stopRecording_inactive s :
  Inv s -> device_active s = false -> stopRecording s = s.
Proof.
  intros [Ht Hts Han Hau Hph Hc] Hda.
  unfold_obs. break_state s; cbn in *; subst.
  assert (fr = []) as ->.
  { destruct st; cbn in *; try tauto. destruct Hph as (_ & Hx & _); congruence. }
  unfold stopRecording; cbn.
  break_recorder; cbn in *; try discriminate.
  all: destruct af as [[|k]|]; reflexivity.
Qed.

Lemma click_busy o now signal s :
  Inv s -> busy s = true -> step (Click o now signal) s = Some s.
Proof.
  intros HI Hb. cbn. f_equal. unfold onClick, busy in *.
  pose proof (inv_phase _ HI) as Hph. unfold phase_inv in Hph.
  destruct (state s); try discriminate.
  all: apply stopRecording_inactive; tauto.
Qed.

Lemma run_skip_clicks evs : forall s,
  Inv s -> busy_run (filter not_Click evs) s = true ->
  run evs s = run (filter not_Click evs) s.
Proof.
  induction evs as [|e evs IH]; intros s HI Hb; [reflexivity|].
  destruct (is_Click e) eqn:Hc.
  - cbn [filter]. unfold not_Click at 1. rewrite Hc. cbn [negb].
    unfold not_Click at 1 in Hb. cbn [filter] in Hb. rewrite Hc in Hb. cbn [negb] in Hb.
    destruct e; try discriminate.
    cbn [run]. rewrite click_busy; eauto using busy_run_busy.
  - cbn [filter] in *. unfold not_Click at 1. unfold not_Click at 1 in Hb.
    rewrite Hc in *. cbn [negb] in *.
    cbn [busy_run] in Hb. apply andb_prop in Hb as [_ Hb].
    cbn [run]. destruct (step e s) as [s1|] eqn:Hs; [|reflexivity].
    apply IH; auto. eapply Inv_step; eassumption.
Qed.

(** ** The silence detector in a listening phase *)

Lemma step_frame_single k now signal s :
  frames s = [k] ->
  step (Frame k now signal) s = Some (checkSilence now signal (set_frames [] s)).
Proof.
  intros H. unfold step. rewrite H. unfold existsb, filter.
  rewrite Nat.eqb_refl. reflexivity.
Qed.

Lemma tick_listening s :
  Inv s -> state s = listening ->
  exists id, frames s = [id] /\
    forall now signal,
      let last := if loud (sample signal) then now else lastSoundTimeRef s in
      exists s', step (Frame id now signal) s = Some s' /\
        lastSoundTimeRef s' = last /\
        if now - last >? SILENCE_DURATION
        then state s' = processing /\ stop_calls s' = S (stop_calls s) /\
             frames s' = [] /\ alerts s' = alerts s /\ playbacks s' = playbacks s /\
             zenData s' = zenData s /\ audioChunksRef s' = audioChunksRef s /\
             exists m, tasks s' = [TRecorderStop m]
        else state s' = listening /\ stop_calls s' = stop_calls s /\
             alerts s' = alerts s /\ playbacks s' = playbacks s /\
             zenData s' = zenData s /\ audioChunksRef s' = audioChunksRef s /\
             exists id', frames s' = [id'].
Proof.
  intros [Ht Hts Han Hau Hph Hc] Est.
  unfold phase_inv in Hph. rewrite Est in Hph.
  destruct Hph as (Htk & Hda & k & Hfr & Haf).
  exists (S k). split; [assumption|]. intros now signal last.
  destruct Hau as [Hac Hana]; [congruence|].
  rewrite (step_frame_single _ _ _ _ Hfr).
  eexists. split; [reflexivity|].
  unfold alerts, playbacks, sample in *. unfold_obs.
  break_state s; cbn in *; subst.
  unfold checkSilence; cbn. subst last.
  match goal with |- context [loud ?d] => destruct (loud d) end; cbn.
  all: match goal with |- context [?a >? ?b] => destruct (a >? b) end.
  all: unfold stopRecording; cbn.
  all: break_recorder; cbn in *; try discriminate.
  all: rewrite ?Nat.eqb_refl; cbn; repeat split; eauto.
Qed.

Lemma frame_needs_listening id now signal s :
  Inv s -> state s <> listening -> step (Frame id now signal) s = None.
Proof.
  intros HI Hst. pose proof (inv_phase _ HI) as Hph. unfold phase_inv in Hph.
  cbn. destruct (state s); try congruence.
  all: destruct Hph as (? & ? & ?).
  all: match goal with H : frames _ = [] |- _ => rewrite H end; reflexivity.
Qed.

Lemma frame_id_pending id now signal s s' :
  step (Frame id now signal) s = Some s' -> forall k, frames s = [k] -> id = k.
Proof.
  cbn. intros H k Hk. rewrite Hk in H.
  destruct (existsb (Nat.eqb id) [k]) eqn:Hex; [|discriminate].
  now apply existsb_single.
Qed.

Lemma last_sound_snoc t0 ticks now signal :
  last_sound t0 (ticks ++ [(now, signal)]) =
  if loud (sample signal) then now else last_sound t0 ticks.
Proof. unfold last_sound. rewrite fold_left_app. reflexivity. Qed.

Lemma listening_last_sound evs : forall s s',
  Inv s -> state s = listening -> forallb is_Frame evs = true ->
  run evs s = Some s' -> state s' = listening ->
  lastSoundTimeRef s' = last_sound (lastSoundTimeRef s) (ticks_of evs).
Proof.
  induction evs as [|e evs IH]; intros s s' HI Est Hfr Hr Est'.
  - cbn in Hr. injection Hr as <-. reflexivity.
  - cbn [forallb] in Hfr. apply andb_prop in Hfr as [He Hfr].
    destruct e as [| id now signal | | | | | |]; try discriminate.
    cbn [run] in Hr.
    destruct (step (Frame id now signal) s) as [s1|] eqn:Hs; [|discriminate].
    destruct (tick_listening s HI Est) as (k & Hk & Htick).
    pose proof (frame_id_pending _ _ _ _ _ Hs _ Hk) as ->.
    destruct (Htick now signal) as (s1' & Hs1 & Hlast & Hcase).
    rewrite Hs in Hs1. injection Hs1 as <-.
    assert (HI1 : Inv s1) by (eapply Inv_step; eassumption).
    destruct (now - (if loud (sample signal) then now else lastSoundTimeRef s)
              >? SILENCE_DURATION) eqn:Hgt.
    + (* capture stopped: no further frame can be delivered *)
      destruct Hcase as (Hp & _).
      destruct evs as [|e evs].
      * cbn in Hr. injection Hr as <-. congruence.
      * cbn [forallb] in Hfr. apply andb_prop in Hfr as [He' _].
        destruct e; try discriminate.
        cbn [run] in Hr. rewrite frame_needs_listening in Hr; [discriminate|auto|congruence].
    + destruct Hcase as (Hl & _).
      rewrite (IH s1 s' HI1 Hl Hfr Hr Est'). rewrite Hlast.
      cbn [ticks_of flat_map app]. unfold last_sound. cbn [fold_left fst snd]. reflexivity.
Qed.

Lemma start_granted t0 sig0 s0 :
  Inv s0 -> state s0 = idle ->
  exists s1, step (Click MicGranted t0 sig0) s0 = Some s1 /\
    state s1 = listening /\ lastSoundTimeRef s1 = t0 /\ zenData s1 = None /\
    audioChunksRef s1 = [] /\ alerts s1 = alerts s0 /\
    playbacks s1 = playbacks s0 /\ stop_calls s1 = stop_calls s0.
Proof.
  intros [Ht Hts Han Hau Hph Hc] Est.
  unfold step, onClick. rewrite Est. eexists. split; [reflexivity|].
  unfold alerts, playbacks. unfold_obs.
  break_state s0; cbn in *; subst.
  unfold startListening, initWebAudio; cbn.
  destruct ac as [[]|], Han as [-> | ->]; unfold beginCapture, checkSilence; cbn.
  all: match goal with |- context [loud ?d] => destruct (loud d) end; cbn.
  all: rewrite ?Z.sub_diag; cbn; repeat split; reflexivity.
Qed.

Lemma nondecreasing_head a ts :
  nondecreasing (a :: ts) = true -> forall x, In x ts -> a <= x.
Proof.
  revert a. induction ts as [|b ts IH]; intros a H x Hin; [destruct Hin|].
  cbn [nondecreasing] in H. apply andb_prop in H as [Hab Hts].
  apply Z.leb_le in Hab. destruct Hin as [<- | Hin]; [assumption|].
  specialize (IH b Hts x Hin). lia.
Qed.

Lemma nondecreasing_tail a ts :
  nondecreasing (a :: ts) = true -> nondecreasing ts = true.
Proof.
  destruct ts as [|b ts]; [reflexivity|].
  cbn [nondecreasing]. intros H. apply andb_prop in H. tauto.
Qed.

Lemma last_sound_lower_bound a ticks : forall b,
  a <= b -> (forall x, In x (map fst ticks) -> a <= x) ->
  a <= last_sound b ticks.
Proof.
  induction ticks as [|[t sig] ticks IH]; intros b Hab Hall; [assumption|].
  unfold last_sound. cbn [fold_left fst snd]. apply IH.
  - destruct (loud (sample sig)); [apply Hall; now left | assumption].
  - intros x Hx. apply Hall. now right.
Qed.

(** With a clock that never goes back, no tick above the threshold is later
    than [last_sound]. *)
Lemma loud_tick_before_last_sound ticks : forall t0 t sig,
  nondecreasing (map fst ticks) = true ->
  In (t, sig) ticks -> loud (sample sig) = true ->
  t <= last_sound t0 ticks.
Proof.
  induction ticks as [|[t1 s1] ticks IH]; intros t0 t sig Hnd Hin Hl;
    [destruct Hin|].
  cbn [map fst] in Hnd. unfold last_sound. cbn [fold_left fst snd].
  destruct Hin as [Heq | Hin].
  - injection Heq as -> ->. rewrite Hl.
    apply last_sound_lower_bound; [lia|].
    now apply nondecreasing_head.
  - apply (IH _ t sig); auto. now apply nondecreasing_tail in Hnd.
Qed.

(** C1, amended. In every listening phase a tick is pending, and the tick at
    [now] stops the recording (one [stop()] call, no frame left) exactly when
    more than [SILENCE_DURATION] ms have passed since the last tick above the
    threshold, or since the start of the phase; otherwise nothing is stopped
    and the next tick is requested. In particular, with a clock that never
    goes back, a tick above the threshold within the last [SILENCE_DURATION]
    ms means that nothing is stopped. The first call, made by
    [startListening] at [t0], is at distance 0 and never stops. *)
Theorem silence_stop_iff_quiet_longer_than_duration :
  forall s0 t0 sig0 evs s,
    reachable s0 -> state s0 = idle ->
    forallb is_Frame evs = true ->
    run (Click MicGranted t0 sig0 :: evs) s0 = Some s ->
    state s = listening ->
    exists id, frames s = [id] /\
      forall now signal,
        let quiet := now - last_sound t0 (ticks_of evs ++ [(now, signal)]) in
        exists s', step (Frame id now signal) s = Some s' /\
          (SILENCE_DURATION < quiet <->
             state s' = processing /\ stop_calls s' = S (stop_calls s) /\
             frames s' = []) /\
          (quiet <= SILENCE_DURATION <->
             state s' = listening /\ stop_calls s' = stop_calls s /\
             exists id', frames s' = [id']) /\
          (nondecreasing (map fst (ticks_of evs ++ [(now, signal)])) = true ->
           forall t sig,
             In (t, sig) (ticks_of evs ++ [(now, signal)]) ->
             loud (sample sig) = true -> now - t <= SILENCE_DURATION ->
             state s' = listening /\ stop_calls s' = stop_calls s).
Proof.
  intros s0 t0 sig0 evs s Hreach Est0 Hfr Hr Est.
  apply reachable_Inv in Hreach.
  destruct (start_granted t0 sig0 s0 Hreach Est0) as (s1 & Hs1 & Hl1 & Hls1 & _).
  cbn [run] in Hr. rewrite Hs1 in Hr.
  assert (HI1 : Inv s1) by (eapply Inv_step; eassumption).
  assert (HI : Inv s) by (eapply Inv_run; eassumption).
  pose proof (listening_last_sound evs s1 s HI1 Hl1 Hfr Hr Est) as Hlast.
  rewrite Hls1 in Hlast.
  destruct (tick_listening s HI Est) as (id & Hid & Htick).
  exists id. split; [assumption|]. intros now signal quiet.
  destruct (Htick now signal) as (s' & Hs' & _ & Hcase).
  exists s'. split; [assumption|].
  assert (Hwin :
    nondecreasing (map fst (ticks_of evs ++ [(now, signal)])) = true ->
    forall t sig,
      In (t, sig) (ticks_of evs ++ [(now, signal)]) ->
      loud (sample sig) = true -> now - t <= SILENCE_DURATION ->
      quiet <= SILENCE_DURATION).
  { intros Hnd t sig Hin Hl Hnear.
    pose proof (loud_tick_before_last_sound _ t0 t sig Hnd Hin Hl).
    subst quiet. lia. }
  subst quiet. rewrite last_sound_snoc, <- Hlast in *.
  destruct (now - (if loud (sample signal) then now else lastSoundTimeRef s)
            >? SILENCE_DURATION) eqn:Hgt.
  - apply Z.gtb_lt in Hgt. destruct Hcase as (Hp & Hsc & Hfs & _).
    split; [|split]; try (split; try tauto; lia).
    intros Hnd t sig Hin Hl Hnear.
    specialize (Hwin Hnd t sig Hin Hl Hnear). lia.
  - assert (Hle : now - (if loud (sample signal) then now else lastSoundTimeRef s)
                  <= SILENCE_DURATION).
    { destruct (Z.gtb_spec (now - (if loud (sample signal) then now else lastSoundTimeRef s)) SILENCE_DURATION); [discriminate|lia]. }
    destruct Hcase as (Hl & Hsc & _ & _ & _ & _ & Hf).
    split; [|split]; try (split; try tauto; lia).
Qed.

(** ** From the start to the end of capture *)

Lemma stop_click_listening o now signal s :
  Inv s -> state s = listening ->
  exists s', step (Click o now signal) s = Some s' /\
    state s' = processing /\ frames s' = [] /\ timers s' = [] /\
    stop_calls s' = S (stop_calls s) /\ start_calls s' = start_calls s /\
    device_active s' = false /\
    (exists m, tasks s' = [TRecorderStop m]) /\
    alerts s' = alerts s /\ playbacks s' = playbacks s /\
    zenData s' = zenData s /\ audioChunksRef s' = audioChunksRef s.
Proof.
  intros [Ht Hts Han Hau Hph Hc] Est.
  unfold phase_inv in Hph. rewrite Est in Hph.
  destruct Hph as (Htk & Hda & k & Hfr & Haf).
  unfold step, onClick. rewrite Est. eexists. split; [reflexivity|].
  unfold alerts, playbacks. unfold_obs.
  break_state s; cbn in *; subst.
  unfold stopRecording; cbn.
  break_recorder; cbn in *; try discriminate.
  all: rewrite ?Nat.eqb_refl; cbn; repeat split; eauto.
Qed.

Lemma capturing_step e a p s s' :
  capture_event e = true -> Inv s -> capturing a p s ->
  step e s = Some s' -> capturing a p s'.
Proof.
  intros He HI (Ha & Hp & Hz & Hch & Hst) Hs.
  destruct Hst as [Hl | (Hp' & m & Hm)].
  - destruct e as [o now signal | id now signal | | | | | |]; try discriminate.
    + destruct (stop_click_listening o now signal s HI Hl)
        as (s1 & Hs1 & Hst1 & _ & _ & _ & _ & _ & Hm1 & Ha1 & Hp1 & Hz1 & Hch1).
      rewrite Hs in Hs1. injection Hs1 as <-.
      repeat split; try congruence. right. tauto.
    + destruct (tick_listening s HI Hl) as (k & Hk & Htick).
      pose proof (frame_id_pending _ _ _ _ _ Hs _ Hk) as ->.
      destruct (Htick now signal) as (s1 & Hs1 & _ & Hcase).
      rewrite Hs in Hs1. injection Hs1 as <-.
      destruct (_ >? _).
      * destruct Hcase as (? & ? & ? & ? & ? & ? & ? & ?).
        repeat split; try congruence. right. tauto.
      * destruct Hcase as (? & ? & ? & ? & ? & ? & ?).
        repeat split; try congruence. left. tauto.
  - destruct e as [o now signal | id now signal | | | | | |]; try discriminate.
    + rewrite click_busy in Hs; auto.
      * injection Hs as <-. repeat split; auto. right. eauto.
      * unfold busy. rewrite Hp'. reflexivity.
    + rewrite frame_needs_listening in Hs; auto; congruence.
Qed.

Lemma capturing_run evs : forall a p s s',
  forallb capture_event evs = true -> Inv s -> capturing a p s ->
  run evs s = Some s' -> capturing a p s'.
Proof.
  induction evs as [|e evs IH]; intros a p s s' Hev HI Hc Hr.
  - cbn in Hr. now injection Hr as <-.
  - cbn [forallb] in Hev. apply andb_prop in Hev as [He Hev].
    cbn [run] in Hr. destruct (step e s) as [s1|] eqn:Hs; [|discriminate].
    eapply IH; [exact Hev | | | exact Hr].
    + eapply Inv_step; eassumption.
    + eapply capturing_step; eassumption.
Qed.

(** From [idle] through a successful start to the end of capture. *)
Lemma capture_phase t0 sig0 listen s0 s1 :
  Inv s0 -> state s0 = idle ->
  forallb capture_event listen = true ->
  run (Click MicGranted t0 sig0 :: listen) s0 = Some s1 ->
  state s1 = processing ->
  Inv s1 /\ (exists m, tasks s1 = [TRecorderStop m]) /\
  alerts s1 = alerts s0 /\ playbacks s1 = playbacks s0 /\
  zenData s1 = None /\ audioChunksRef s1 = [].
Proof.
  intros HI Est Hev Hr Hp.
  destruct (start_granted t0 sig0 s0 HI Est)
    as (s & Hs & Hl & _ & Hz & Hch & Ha & Hpb & _).
  cbn [run] in Hr. rewrite Hs in Hr.
  assert (HIs : Inv s) by (eapply Inv_step; eassumption).
  assert (Hc : capturing (alerts s0) (playbacks s0) s).
  { repeat split; auto. }
  pose proof (capturing_run listen _ _ s s1 Hev HIs Hc Hr) as (? & ? & ? & ? & Hst).
  split; [eapply Inv_run; eassumption|].
  destruct Hst as [Hl1 | (_ & Hm)]; [congruence|]. tauto.
Qed.

Lemma run_with_clicks pre chain last s :
  Inv s -> filter not_Click pre = chain -> busy_run chain s = true ->
  run (pre ++ [last]) s = run (chain ++ [last]) s.
Proof.
  intros HI <- Hb. rewrite !run_app. now rewrite run_skip_clicks.
Qed.

(** ** The log of calls *)

Lemma grows_refl s : grows s s.
Proof. now exists []. Qed.

Lemma grows_trans s1 s2 s3 : grows s1 s2 -> grows s2 s3 -> grows s1 s3.
Proof.
  intros [l1 H1] [l2 H2]. exists (l2 ++ l1). now rewrite H2, H1, app_assoc.
Qed.

Lemma stopRecording_grows s : grows s (stopRecording s).
Proof.
  unfold grows, stopRecording. break_state s. cbn. grows_by_cases.
Qed.

Lemma checkSilence_grows now signal s : grows s (checkSilence now signal s).
Proof.
  unfold checkSilence. destruct (analyserRef s); [|apply grows_refl].
  destruct (loud _); destruct (_ >? _).
  - eapply grows_trans; [|apply stopRecording_grows]. now exists [].
  - now exists [].
  - apply stopRecording_grows.
  - now exists [].
Qed.

Lemma initWebAudio_effects b s :
  match initWebAudio b s with
  | Normal s1 | Throw s1 => effects s1 = effects s
  end.
Proof.
  unfold initWebAudio.
  destruct b, (audioContextRef s) eqn:Hac; cbn; rewrite ?Hac; cbn; auto.
  all: destruct (analyserRef s); reflexivity.
Qed.

Lemma startListening_grows o now signal s :
  grows s (startListening o now signal s).
Proof.
  unfold startListening.
  pose proof (initWebAudio_effects (is_ResumeRejected o) s) as Hi.
  destruct (initWebAudio (is_ResumeRejected o) s) as [s1|s1];
    cbn [bind try_catch].
  2: { exists [Alert "Microphone access required."%string]. cbn. congruence. }
  destruct o; cbn [initAudio getUserMedia bind try_catch].
  2-3: exists [Alert "Microphone access required."%string]; cbn; congruence.
  all: unfold beginCapture; eapply grows_trans; [|apply checkSilence_grows].
  all: exists [StopAudio; RecorderStart]; cbn; congruence.
Qed.

Create HintDb log_grows.
#[local] Hint Resolve grows_refl stopRecording_grows checkSilence_grows
  startListening_grows : log_grows.

Lemma step_grows e s s' : step e s = Some s' -> grows s s'.
Proof.
  destruct e; cbn [step]; intros H.
  - injection H as <-. unfold onClick.
    destruct (state s); auto with log_grows.
  - destruct (existsb _ _); [|discriminate]. injection H as <-.
    eapply grows_trans; [|apply checkSilence_grows]. now exists [].
  - destruct (take_task _ _) as [[[] rest]|]; try discriminate.
    injection H as <-. unfold handleStop, handleDataAvailable.
    destruct data; now exists [].
  - destruct (take_task _ _) as [[[] rest]|]; try discriminate.
    injection H as <-. unfold onloadend.
    destruct result_ok; [eexists [_]; reflexivity | now exists []].
  - destruct (take_task _ _) as [[t rest]|]; try discriminate.
    injection H as <-. unfold afterAnalyze, zenMasterUnreachable.
    destruct outcome as [r|]; [destruct (breathing r)|];
      cbn; solve [eexists [_; _]; reflexivity | eexists [_; _; _]; reflexivity].
  - destruct (take_task _ _) as [[t rest]|]; try discriminate.
    injection H as <-. unfold afterSynthesize, zenMasterUnreachable.
    destruct outcome as [r|]; cbn;
      [destruct (audioContextRef s), (analyserRef s); now exists []
      | eexists [_; _]; reflexivity].
  - destruct (take_task _ _) as [[t rest]|]; try discriminate.
    injection H as <-. unfold afterDecode, zenMasterUnreachable.
    destruct outcome as [r|]; cbn;
      solve [eexists [_]; reflexivity | eexists [_; _]; reflexivity].
  - destruct (take_task _ _) as [[t rest]|]; try discriminate.
    injection H as <-. now exists [].
Qed.

Lemma run_grows evs : forall s s', run evs s = Some s' -> grows s s'.
Proof.
  induction evs as [|e evs IH]; cbn; intros s s' H.
  - injection H as <-. apply grows_refl.
  - destruct (step e s) as [s1|] eqn:Hs; [|discriminate].
    eapply grows_trans; [eapply step_grows; eassumption | now apply IH].
Qed.

Lemma grows_count p s s' : grows s s' -> (count p s <= count p s')%nat.
Proof.
  intros [l H]. unfold count. rewrite H, filter_app, length_app. lia.
Qed.

(** ** What follows the end of capture *)

Lemma successful_chain data analysis speech decoded m s1 :
  Inv s1 -> state s1 = processing -> tasks s1 = [TRecorderStop m] ->
  audioChunksRef s1 = [] ->
  busy_run [RecorderStopped data; LoadEnd true; AnalyzeSettled (Some analysis);
            SynthesizeSettled (Some speech); DecodeSettled (Some decoded)] s1
    = true /\
  exists s2,
    run ([RecorderStopped data; LoadEnd true; AnalyzeSettled (Some analysis);
          SynthesizeSettled (Some speech); DecodeSettled (Some decoded)]
         ++ [PlaybackEnded]) s1 = Some s2 /\
    state s2 = idle /\ zenData s2 = Some analysis /\
    playbacks s2 = S (playbacks s1) /\ alerts s2 = alerts s1 /\ tasks s2 = [].
Proof.
  intros HI Hp Hm Hch.
  settle_chain HI Hp Hm Hch.
  destruct data, analysis as [em wi [br|]].
  all: split; [vm_compute; reflexivity|].
  all: eexists; split; [vm_compute; reflexivity|]; vm_compute; repeat split; auto 10.
Qed.

Lemma analyze_failure_chain data m s1 :
  Inv s1 -> state s1 = processing -> tasks s1 = [TRecorderStop m] ->
  audioChunksRef s1 = [] ->
  busy_run [RecorderStopped data; LoadEnd true] s1 = true /\
  exists s2,
    run ([RecorderStopped data; LoadEnd true] ++ [AnalyzeSettled None]) s1
      = Some s2 /\
    state s2 = idle /\ alerts s2 = S (alerts s1) /\
    playbacks s2 = playbacks s1 /\ tasks s2 = [] /\ frames s2 = [] /\
    zenData s2 = zenData s1.
Proof.
  intros HI Hp Hm Hch.
  settle_chain HI Hp Hm Hch.
  destruct data.
  all: split; [vm_compute; reflexivity|].
  all: eexists; split; [vm_compute; reflexivity|]; vm_compute; repeat split; auto 10.
Qed.

Lemma synthesize_failure_chain data analysis m s1 :
  Inv s1 -> state s1 = processing -> tasks s1 = [TRecorderStop m] ->
  audioChunksRef s1 = [] ->
  busy_run [RecorderStopped data; LoadEnd true; AnalyzeSettled (Some analysis)]
    s1 = true /\
  exists s2,
    run ([RecorderStopped data; LoadEnd true; AnalyzeSettled (Some analysis)]
         ++ [SynthesizeSettled None]) s1 = Some s2 /\
    state s2 = idle /\ alerts s2 = S (alerts s1) /\
    playbacks s2 = playbacks s1 /\ tasks s2 = [] /\ frames s2 = [] /\
    zenData s2 = Some analysis /\
    In (PlayAmbient (emotion analysis)) (effects s2).
Proof.
  intros HI Hp Hm Hch.
  settle_chain HI Hp Hm Hch.
  destruct data, analysis as [em wi [br|]].
  all: split; [vm_compute; reflexivity|].
  all: eexists; split; [vm_compute; reflexivity|]; vm_compute; repeat split; auto 10.
Qed.



(** ** Cycles *)

Section Cycle.

(** A session from [s0]: the start is granted at [t0]; [listen] holds the
    frames and clicks up to the end of capture, by silence or by the stop
    control, which leaves [s1]. *)
Variables (s0 s1 : State) (t0 : Z) (sig0 : list Z) (listen : list Event).
Hypothesis s0_reachable : reachable s0.
Hypothesis s0_idle : state s0 = idle.
Hypothesis listen_events : forallb capture_event listen = true.
Hypothesis listen_run :
  run (Click MicGranted t0 sig0 :: listen) s0 = Some s1.
Hypothesis capture_over : state s1 = processing.

Lemma after_capture :
  Inv s1 /\ (exists m, tasks s1 = [TRecorderStop m]) /\
  alerts s1 = alerts s0 /\ playbacks s1 = playbacks s0 /\
  zenData s1 = None /\ audioChunksRef s1 = [].
Proof.
  apply (capture_phase t0 sig0 listen s0 s1); auto using reachable_Inv.
Qed.

(** C2. A successful cycle: from [idle], a start that is granted, a listening
    phase ended by silence or by the stop control, then the recorder's stop
    task, the reader, a successful [analyzeAudio], a successful
    [generateSpeech], a successful decode and the end of playback (clicks may
    come in between). It ends in [idle], the stored result is the one
    [analyzeAudio] returned, and exactly one playback was started. *)
Theorem successful_cycle_ends_idle_after_one_playback :
  forall pre data analysis speech decoded,
    filter not_Click pre =
      [RecorderStopped data; LoadEnd true; AnalyzeSettled (Some analysis);
       SynthesizeSettled (Some speech); DecodeSettled (Some decoded)] ->
    exists s2,
      run (pre ++ [PlaybackEnded]) s1 = Some s2 /\
      state s2 = idle /\ zenData s2 = Some analysis /\
      playbacks s2 = S (playbacks s0) /\ tasks s2 = [].
Proof.
  intros pre data analysis speech decoded Hpre.
  destruct after_capture as (HI1 & (m & Hm) & Ha & Hpb & Hz & Hch).
  destruct (successful_chain data analysis speech decoded m s1
              HI1 capture_over Hm Hch)
    as (Hb & s2 & Hr2 & Hst2 & Hz2 & Hp2 & _ & Ht2).
  exists s2. rewrite (run_with_clicks _ _ _ _ HI1 Hpre Hb).
  repeat split; auto. congruence.
Qed.

(** C3. A cycle in which [analyzeAudio] or [generateSpeech] fails ends in
    [idle], with exactly one more notice shown, no playback started and
    nothing of the cycle left pending. *)
Theorem failure_ends_idle_with_one_notice_and_no_playback :
  forall pre failed data,
    (filter not_Click pre = [RecorderStopped data; LoadEnd true] /\
     failed = AnalyzeSettled None) \/
    (exists analysis,
       filter not_Click pre =
         [RecorderStopped data; LoadEnd true; AnalyzeSettled (Some analysis)] /\
       failed = SynthesizeSettled None) ->
    exists s2,
      run (pre ++ [failed]) s1 = Some s2 /\
      state s2 = idle /\ alerts s2 = S (alerts s0) /\
      playbacks s2 = playbacks s0 /\ tasks s2 = [] /\ frames s2 = [].
Proof.
  intros pre failed data Hcase.
  destruct after_capture as (HI1 & (m & Hm) & Ha & Hpb & Hz & Hch).
  destruct Hcase as [(Hpre & ->) | (analysis & Hpre & ->)].
  - destruct (analyze_failure_chain data m s1 HI1 capture_over Hm Hch)
      as (Hb & s2 & Hr2 & Hst2 & Ha2 & Hp2 & Ht2 & Hf2 & _).
    exists s2. rewrite (run_with_clicks _ _ _ _ HI1 Hpre Hb).
    repeat split; auto; congruence.
  - destruct (synthesize_failure_chain data analysis m s1
                HI1 capture_over Hm Hch)
      as (Hb & s2 & Hr2 & Hst2 & Ha2 & Hp2 & Ht2 & Hf2 & _).
    exists s2. rewrite (run_with_clicks _ _ _ _ HI1 Hpre Hb).
    repeat split; auto; congruence.
Qed.



End Cycle.

(** ** Stopping *)



(** ** Speaking *)


Lemma stuck_speaking_step l0 e s s' :
  stuck_speaking l0 s -> step e s = Some s' -> stuck_speaking l0 s'.
Proof.
  intros (Hst & Htk & Hfr & Hda & Hef) Hs.
  destruct e; unfold step in Hs; rewrite ?Htk, ?Hfr in Hs; try discriminate.
  injection Hs as <-. unfold onClick. rewrite Hst.
  unfold stuck_speaking, stopRecording, device_active in *.
  break_state s; cbn in *; subst.
  break_recorder; cbn in *; try discriminate.
  all: destruct af as [[|k]|], stm as [[|j]|]; cbn; auto.
Qed.

Lemma stuck_speaking_run l0 evs : forall s s',
  stuck_speaking l0 s -> run evs s = Some s' -> stuck_speaking l0 s'.
Proof.
  induction evs as [|e evs IH]; cbn; intros s s' H Hr.
  - now injection Hr as <-.
  - destruct (step e s) as [s1|] eqn:Hs; [|discriminate].
    eapply IH; [|eassumption]. eapply stuck_speaking_step; eassumption.
Qed.

(** C10. [generateSpeech] succeeds while the audio context or the analyser
    is absent: the state becomes [speaking], nothing is logged (no playback,
    no notice), no continuation is left pending (no decode, no [onended]),
    and from then on every run stays in [speaking]. *)
Theorem speaking_without_audio_graph_never_ends :
  forall s speech,
    audioContextRef s = None \/ analyserRef s = None ->
    tasks s = [TSynthesize] -> frames s = [] -> device_active s = false ->
    exists s',
      step (SynthesizeSettled (Some speech)) s = Some s' /\
      state s' = speaking /\ effects s' = effects s /\ tasks s' = [] /\
      forall evs s'',
        run evs s' = Some s'' ->
        state s'' = speaking /\ playbacks s'' = playbacks s /\
        alerts s'' = alerts s.
Proof.
  intros s speech Hno Htk Hfr Hda.
  assert (Hs : exists s', step (SynthesizeSettled (Some speech)) s = Some s' /\
                 stuck_speaking (effects s) s').
  { unfold step. rewrite Htk. cbn [take_task is_TSynthesize].
    eexists. split; [reflexivity|].
    unfold stuck_speaking, afterSynthesize, device_active in *.
    break_state s; cbn in *; subst.
    destruct Hno as [-> | ->]; [|destruct ac]; cbn; auto. }
  destruct Hs as (s' & Hs & Hstuck).
  exists s'. split; [assumption|].
  pose proof Hstuck as (H1 & H2 & _ & _ & H5). repeat split; auto.
  all: destruct (stuck_speaking_run _ _ _ _ Hstuck H) as (? & _ & _ & _ & Hef); auto.
  all: unfold playbacks, alerts, count; now rewrite Hef.
Qed.

(** ** A tick without analyser *)


(** ** Sanity of the sampling *)

Lemma getByteFrequencyData_length signal :
  List.length (sample signal) = 32%nat.
Proof.
  unfold sample, getByteFrequencyData.
  rewrite length_firstn, length_app, repeat_length.
  change (frequencyBinCount the_analyser) with 32%nat. lia.
Qed.

Example average_at_threshold_is_not_loud : loud (repeat 15 32) = false.
Proof. reflexivity. Qed.

Example one_step_above_threshold_is_loud : loud (16 :: repeat 15 31) = true.
Proof. reflexivity. Qed.

(** ** Counterexamples and instances *)

(** C1 as stated fails at the boundary: 2000 ms after the start of a phase
    with no sample above the threshold the quiet time is "at least 2000 ms",
    and the tick stops nothing and requests the next frame. *)
Lemma quiet_for_exactly_the_duration_does_not_stop :
  exists s s',
    run [press 0] init = Some s /\
    loud (sample []) = false /\
    SILENCE_DURATION <= 2000 - last_sound 0 [(2000, [])] /\
    step (Frame 1 2000 []) s = Some s' /\
    state s' = listening /\ stop_calls s' = stop_calls s /\
    frames s' = [2%nat].
Proof.
  eexists. eexists. split; [vm_compute; reflexivity|].
  vm_compute. repeat split; discriminate.
Qed.

(** The detector on a session from [init] with one tick so far. *)
Lemma silence_stop_instance :
  reachable init /\
  exists id, frames (state_after [press 0; Frame 1 100 []]) = [id].
Proof.
  split; [exists []; reflexivity|].
  destruct (silence_stop_iff_quiet_longer_than_duration
              init 0 [] [Frame 1 100 []] (state_after [press 0; Frame 1 100 []]))
    as (id & Hid & _).
  - exists []. reflexivity.
  - reflexivity.
  - reflexivity.
  - vm_compute. reflexivity.
  - vm_compute. reflexivity.
  - exists id. exact Hid.
Defined.

(** A successful cycle from [init], with a click while processing. *)
Lemma successful_cycle_instance :
  run capture init = Some (state_after capture) /\
  exists s2,
    run ([RecorderStopped chunk_a; press 600; LoadEnd true;
          AnalyzeSettled (Some calm); SynthesizeSettled (Some speech);
          DecodeSettled (Some speech)] ++ [PlaybackEnded])
      (state_after capture) = Some s2 /\
    state s2 = idle /\ zenData s2 = Some calm /\
    playbacks s2 = S (playbacks init) /\ tasks s2 = [].
Proof.
  split; [vm_compute; reflexivity|].
  apply (successful_cycle_ends_idle_after_one_playback
           init (state_after capture) 0 [] [press 500])
    with (data := chunk_a) (speech := speech) (decoded := speech).
  - exists []. reflexivity.
  - reflexivity.
  - reflexivity.
  - vm_compute. reflexivity.
  - vm_compute. reflexivity.
  - vm_compute. reflexivity.
Defined.

(** A cycle from [init] in which [analyzeAudio] fails. *)
Lemma failure_instance :
  run capture init = Some (state_after capture) /\
  exists s2,
    run ([RecorderStopped chunk_a; LoadEnd true] ++ [AnalyzeSettled None])
      (state_after capture) = Some s2 /\
    state s2 = idle /\ alerts s2 = S (alerts init) /\
    playbacks s2 = playbacks init /\ tasks s2 = [] /\ frames s2 = [].
Proof.
  split; [vm_compute; reflexivity|].
  apply (failure_ends_idle_with_one_notice_and_no_playback
           init (state_after capture) 0 [] [press 500]) with (data := chunk_a).
  - exists []. reflexivity.
  - reflexivity.
  - reflexivity.
  - vm_compute. reflexivity.
  - vm_compute. reflexivity.
  - left. split; vm_compute; reflexivity.
Defined.










(** [generateSpeech] succeeds in [mute]. *)
Lemma mute_instance :
  audioContextRef mute = None /\
  exists s',
    step (SynthesizeSettled (Some speech)) mute = Some s' /\
    state s' = speaking /\ effects s' = effects mute /\ tasks s' = [].
Proof.
  split; [reflexivity|].
  destruct (speaking_without_audio_graph_never_ends mute speech)
    as (s' & Hs & Hst & Hef & Htk & _).
  - left. reflexivity.
  - vm_compute. reflexivity.
  - vm_compute. reflexivity.
  - vm_compute. reflexivity.
  - exists s'. auto.
Defined.

(** * Further properties *)

(** ** The life cycle of a session *)

Lemma startListening_state o now signal s :
  state (startListening o now signal s) =
  match o with MicGranted => listening | _ => idle end.
Proof.
  break_state s.
  destruct o; unfold startListening, initWebAudio; cbn; try reflexivity.
  destruct ac, an; unfold beginCapture, checkSilence; cbn.
  all: match goal with |- context [loud ?d] => destruct (loud d) end; cbn.
  all: rewrite ?Z.sub_diag; reflexivity.
Qed.






(** X3. A start that fails (the audio context does not resume, [initAudio]
    rejects, or the microphone is refused) leaves the session [idle] with one
    alert, no recorder started, nothing pending, and the stored analysis and
    the chunks untouched; the audio context has been created all the same,
    and the next click that is granted starts a listening phase. *)
Theorem failed_start_reverts_to_idle :
  forall s o now signal,
    reachable s -> state s = idle -> o <> MicGranted ->
    exists s',
      step (Click o now signal) s = Some s' /\
      state s' = idle /\
      effects s' = Alert "Microphone access required." :: effects s /\
      mediaRecorderRef s' = mediaRecorderRef s /\
      zenData s' = zenData s /\ audioChunksRef s' = audioChunksRef s /\
      frames s' = [] /\ tasks s' = [] /\
      audioContextRef s' = Some TheAudioContext /\
      forall now' signal', exists s'',
        step (Click MicGranted now' signal') s' = Some s'' /\
        state s'' = listening.
Proof.
  intros s o now signal Hreach Est Ho. apply reachable_Inv in Hreach.
  unfold step, onClick. rewrite Est. eexists. split; [reflexivity|].
  assert (Hst : state (startListening o now signal s) = idle).
  { rewrite startListening_state. destruct o; congruence. }
  assert (HI' : Inv (startListening o now signal s))
    by now apply Inv_startListening.
  pose proof (inv_phase _ HI') as Hph. unfold phase_inv in Hph.
  rewrite Hst in Hph. destruct Hph as (Htk & Hfr & _).
  split; [assumption|].
  repeat match goal with |- _ /\ _ => split end; auto.
  1-5: destruct Hreach as [_ _ Han _ _ _]; clear - Ho Han; break_state s;
       cbn in Han; unfold startListening, initWebAudio;
       destruct o; try congruence; cbn;
       destruct ac as [[]|]; cbn; try reflexivity;
       destruct an; reflexivity.
  intros now' signal'. rewrite Hst. eexists. split; [reflexivity|].
  apply startListening_state.
Qed.

(** A refused microphone after a whole cycle. *)
Lemma failed_start_instance :
  state (state_after cycle_a) = idle /\
  exists s',
    step (Click MicDenied 900 []) (state_after cycle_a) = Some s' /\
    state s' = idle /\ zenData s' = zenData (state_after cycle_a).
Proof.
  split; [vm_compute; reflexivity|].
  destruct (failed_start_reverts_to_idle (state_after cycle_a) MicDenied 900 [])
    as (s' & Hs & Hi & _ & _ & Hz & _).
  - exists cycle_a. vm_compute. reflexivity.
  - vm_compute. reflexivity.
  - discriminate.
  - exists s'. auto.
Defined.

(** ** The audio graph, the chunks, the recorder *)

Lemma audio_graph_kept_same s s' :
  audioContextRef s' = audioContextRef s -> analyserRef s' = analyserRef s ->
  audio_graph_kept s s'.
Proof. intros H1 H2. split; intros; congruence. Qed.

Lemma stopRecording_audio s : audio_graph_kept s (stopRecording s).
Proof.
  apply audio_graph_kept_same; unfold stopRecording; break_state s; cbn;
    repeat match goal with
           | |- context [match ?x with _ => _ end] => destruct x; cbn
           end; reflexivity.
Qed.

Lemma audio_graph_kept_trans s1 s2 s3 :
  audio_graph_kept s1 s2 -> audio_graph_kept s2 s3 -> audio_graph_kept s1 s3.
Proof. intros [H1 H2] [H3 H4]. split; auto. Qed.

Lemma checkSilence_audio now signal s :
  audio_graph_kept s (checkSilence now signal s).
Proof.
  unfold checkSilence.
  destruct (analyserRef s) eqn:Han; [|apply audio_graph_kept_same; reflexivity].
  destruct (loud _); destruct (_ >? _).
  all: try (apply audio_graph_kept_same; reflexivity).
  all: eapply audio_graph_kept_trans; [|apply stopRecording_audio].
  all: apply audio_graph_kept_same; reflexivity.
Qed.

Lemma initWebAudio_audio b s :
  match initWebAudio b s with
  | Normal s1 | Throw s1 => audio_graph_kept s s1
  end.
Proof.
  unfold initWebAudio. break_state s. cbn.
  destruct b, ac, an; cbn; split; cbn; intros x Hx; congruence.
Qed.

Lemma startListening_audio o now signal s :
  audio_graph_kept s (startListening o now signal s).
Proof.
  unfold startListening.
  pose proof (initWebAudio_audio (is_ResumeRejected o) s) as Hi.
  destruct (initWebAudio (is_ResumeRejected o) s) as [s1|s1];
    cbn [bind try_catch].
  2: { eapply audio_graph_kept_trans; [exact Hi|].
       apply audio_graph_kept_same; reflexivity. }
  destruct o; cbn [initAudio getUserMedia bind try_catch].
  2-3: eapply audio_graph_kept_trans; [exact Hi|];
       apply audio_graph_kept_same; reflexivity.
  all: eapply audio_graph_kept_trans; [exact Hi|].
  all: unfold beginCapture.
  all: eapply audio_graph_kept_trans; [|apply checkSilence_audio].
  all: apply audio_graph_kept_same; reflexivity.
Qed.

Lemma step_audio e s s' : step e s = Some s' -> audio_graph_kept s s'.
Proof.
  destruct e; cbn [step]; intros H.
  - injection H as <-. unfold onClick.
    destruct (state s); auto using startListening_audio, stopRecording_audio.
  - destruct (existsb _ _); [|discriminate]. injection H as <-.
    eapply audio_graph_kept_trans; [|apply checkSilence_audio].
    apply audio_graph_kept_same; reflexivity.
  - destruct (take_task _ _) as [[[] rest]|]; try discriminate.
    injection H as <-. destruct data; apply audio_graph_kept_same; reflexivity.
  - destruct (take_task _ _) as [[[] rest]|]; try discriminate.
    injection H as <-. destruct result_ok; apply audio_graph_kept_same; reflexivity.
  - destruct (take_task _ _) as [[t rest]|]; try discriminate.
    injection H as <-.
    destruct outcome as [r|]; [destruct (breathing r) eqn:Hb|];
      apply audio_graph_kept_same; unfold afterAnalyze; rewrite ?Hb; reflexivity.
  - destruct (take_task _ _) as [[t rest]|]; try discriminate.
    injection H as <-.
    destruct outcome as [r|]; unfold afterSynthesize; cbn;
      [destruct (audioContextRef s), (analyserRef s)|];
      apply audio_graph_kept_same; reflexivity.
  - destruct (take_task _ _) as [[t rest]|]; try discriminate.
    injection H as <-. destruct outcome; apply audio_graph_kept_same; reflexivity.
  - destruct (take_task _ _) as [[t rest]|]; try discriminate.
    injection H as <-. apply audio_graph_kept_same; reflexivity.
Qed.

(** X4. Once created, the audio context and the analyser are kept for good:
    no event replaces or drops them, so that every session of the page uses
    the same analyser. *)
Theorem audio_graph_is_created_once :
  forall evs s s',
    run evs s = Some s' ->
    (forall c, audioContextRef s = Some c -> audioContextRef s' = Some c) /\
    (forall a, analyserRef s = Some a -> analyserRef s' = Some a).
Proof.
  induction evs as [|e evs IH]; cbn; intros s s' H.
  - injection H as <-. split; auto.
  - destruct (step e s) as [s1|] eqn:Hs; [|discriminate].
    destruct (step_audio _ _ _ Hs) as [H1 H2].
    destruct (IH _ _ H) as [H3 H4]. split; auto.
Qed.

(** The analyser of the first session is the one of the second. *)
Lemma audio_graph_instance :
  run (skipn 2 cycle_a ++ [press 1000]) (state_after capture) =
    Some (state_after (cycle_a ++ [press 1000])) /\
  analyserRef (state_after (cycle_a ++ [press 1000])) = Some the_analyser.
Proof.
  split; [vm_compute; reflexivity|].
  apply (audio_graph_is_created_once (skipn 2 cycle_a ++ [press 1000])
           (state_after capture)).
  - vm_compute. reflexivity.
  - vm_compute. reflexivity.
Defined.

Lemma deliver_chunks datas : forall s,
  audioChunksRef (deliver datas s) = audioChunksRef s ++ filter nonempty datas.
Proof.
  induction datas as [|d datas IH]; intros s; cbn [deliver fold_left filter].
  - now rewrite app_nil_r.
  - fold (deliver datas (handleDataAvailable d s)). rewrite IH.
    destruct d as [|b d]; cbn; [reflexivity|].
    now rewrite <- app_assoc.
Qed.

Lemma concat_filter_nonempty datas :
  List.concat (filter nonempty datas) = List.concat datas.
Proof.
  induction datas as [|d datas IH]; [reflexivity|].
  destruct d; cbn; [assumption|]. now rewrite IH.
Qed.

Lemma deliver_tasks datas : forall s, tasks (deliver datas s) = tasks s.
Proof.
  induction datas as [|d datas IH]; intros s; cbn [deliver fold_left];
    [reflexivity|].
  fold (deliver datas (handleDataAvailable d s)). rewrite IH.
  destruct d; reflexivity.
Qed.

(** X5. [handleDataAvailable] appends the chunks in the order of delivery
    and drops the empty ones; the blob [handleStop] hands to the reader is
    then the concatenation of all the bytes delivered, in order. *)
Theorem delivered_chunks_keep_every_byte_in_order :
  forall datas mode s,
    audioChunksRef (deliver datas s) =
      audioChunksRef s ++ filter nonempty datas /\
    tasks (handleStop mode (deliver datas s)) =
      tasks s ++
      [TReader (List.concat (audioChunksRef s) ++ List.concat datas) mode].
Proof.
  intros datas mode s. split; [apply deliver_chunks|].
  unfold handleStop. cbn.
  now rewrite deliver_tasks, deliver_chunks, concat_app, concat_filter_nonempty.
Qed.





(** ** The silence window *)

(** X8. As long as every tick reads a sample above the threshold, the
    detector never stops the recording, however far apart the ticks are. *)
Theorem sound_on_every_tick_never_stops :
  forall evs s s',
    reachable s -> state s = listening ->
    forallb loud_frame evs = true ->
    run evs s = Some s' ->
    state s' = listening /\ stop_calls s' = stop_calls s.
Proof.
  intros evs s s' Hreach. apply reachable_Inv in Hreach. revert s s' Hreach.
  induction evs as [|e evs IH]; intros s s' HI Est Hl Hr.
  - cbn in Hr. injection Hr as <-. auto.
  - cbn [forallb] in Hl. apply andb_prop in Hl as [He Hl].
    destruct e as [| id now signal | | | | | |]; try discriminate.
    cbn [loud_frame] in He.
    cbn [run] in Hr.
    destruct (step (Frame id now signal) s) as [s1|] eqn:Hs; [|discriminate].
    destruct (tick_listening s HI Est) as (k & Hk & Htick).
    pose proof (frame_id_pending _ _ _ _ _ Hs _ Hk) as ->.
    destruct (Htick now signal) as (s1' & Hs1 & _ & Hcase).
    rewrite Hs in Hs1. injection Hs1 as <-.
    rewrite He, Z.sub_diag in Hcase. cbn in Hcase.
    destruct Hcase as (Hl1 & Hsc & _).
    destruct (IH s1 s' (Inv_step _ _ _ HI Hs) Hl1 Hl Hr) as (? & ?).
    split; congruence.
Qed.

(** Two loud ticks three seconds apart. *)
Lemma sound_instance :
  forallb loud_frame [Frame 1 3000 voice; Frame 2 6000 voice] = true /\
  state (state_after [press 0; Frame 1 3000 voice; Frame 2 6000 voice]) =
    listening.
Proof.
  split; [vm_compute; reflexivity|].
  apply (sound_on_every_tick_never_stops
           [Frame 1 3000 voice; Frame 2 6000 voice] (state_after [press 0])).
  - exists [press 0]. vm_compute. reflexivity.
  - vm_compute. reflexivity.
  - vm_compute. reflexivity.
  - vm_compute. reflexivity.
Defined.

Lemma silence_window_bounds evs : forall s s',
  Inv s -> state s = listening ->
  forallb is_Frame evs = true ->
  nondecreasing (lastSoundTimeRef s :: map fst (ticks_of evs)) = true ->
  run evs s = Some s' ->
  lastSoundTimeRef s <= lastSoundTimeRef s' /\
  lastSoundTimeRef s' <= last_or (lastSoundTimeRef s) (map fst (ticks_of evs)).
Proof.
  induction evs as [|e evs IH]; intros s s' HI Est Hfr Hnd Hr.
  - cbn in Hr. injection Hr as <-. cbn. lia.
  - cbn [forallb] in Hfr. apply andb_prop in Hfr as [He Hfr].
    destruct e as [| id now signal | | | | | |]; try discriminate.
    cbn [run] in Hr.
    destruct (step (Frame id now signal) s) as [s1|] eqn:Hs; [|discriminate].
    destruct (tick_listening s HI Est) as (k & Hk & Htick).
    pose proof (frame_id_pending _ _ _ _ _ Hs _ Hk) as ->.
    destruct (Htick now signal) as (s1' & Hs1 & Hlast & Hcase).
    rewrite Hs in Hs1. injection Hs1 as <-.
    cbn [ticks_of flat_map app map fst] in Hnd |- *.
    change (flat_map _ evs) with (ticks_of evs) in Hnd |- *.
    assert (Hle : lastSoundTimeRef s <= now).
    { cbn [nondecreasing] in Hnd. apply andb_prop in Hnd as [H _].
      now apply Z.leb_le. }
    assert (Hb : lastSoundTimeRef s <= lastSoundTimeRef s1 <= now).
    { rewrite Hlast. destruct (loud (sample signal)); lia. }
    cbn [last_or].
    destruct (now - _ >? SILENCE_DURATION) eqn:Hgt.
    + destruct Hcase as (Hp & _).
      destruct evs as [|e evs].
      * cbn in Hr. injection Hr as <-. cbn. lia.
      * cbn [forallb] in Hfr. apply andb_prop in Hfr as [He' _].
        destruct e; try discriminate.
        cbn [run] in Hr.
        rewrite frame_needs_listening in Hr;
          [discriminate | eapply Inv_step; eassumption | congruence].
    + destruct Hcase as (Hl1 & _).
      assert (Hnd1 : nondecreasing
                (lastSoundTimeRef s1 :: map fst (ticks_of evs)) = true).
      { apply nondecreasing_tail in Hnd.
        destruct (map fst (ticks_of evs)) as [|t ts] eqn:Hts; [reflexivity|].
        cbn [nondecreasing] in Hnd |- *.
        apply andb_prop in Hnd as [H1 H2]. apply Z.leb_le in H1.
        apply andb_true_intro. split; [apply Z.leb_le; lia|].
        exact H2. }
      destruct (IH s1 s' (Inv_step _ _ _ HI Hs) Hl1 Hfr Hnd1 Hr) as [H1 H2].
      split; [lia|].
      destruct (map fst (ticks_of evs)) as [|t ts] eqn:Hts.
      * cbn in H2 |- *. lia.
      * cbn [last_or] in H2 |- *. exact H2.
Qed.

Lemma nondecreasing_snoc ts : forall a now,
  nondecreasing (a :: ts ++ [now]) = true ->
  nondecreasing (a :: ts) = true /\ last_or a ts <= now.
Proof.
  induction ts as [|t ts IH]; intros a now H.
  - cbn in H |- *. rewrite andb_true_r in H. apply Z.leb_le in H. auto.
  - cbn [app nondecreasing] in H. apply andb_prop in H as [Hat H].
    destruct (IH t now H) as [H1 H2].
    cbn [last_or]. split; [|assumption].
    cbn [nondecreasing]. now rewrite Hat.
Qed.

(** X9. With a clock that does not go back, the time of the last sound lies
    between the start of the listening phase and the current tick, and a
    tick never moves it back. *)
Theorem silence_window_never_goes_back :
  forall s0 t0 sig0 evs s id now signal s',
    reachable s0 -> state s0 = idle ->
    forallb is_Frame evs = true ->
    nondecreasing (t0 :: map fst (ticks_of evs) ++ [now]) = true ->
    run (Click MicGranted t0 sig0 :: evs) s0 = Some s ->
    step (Frame id now signal) s = Some s' ->
    t0 <= lastSoundTimeRef s /\
    lastSoundTimeRef s <= lastSoundTimeRef s' /\
    lastSoundTimeRef s' <= now.
Proof.
  intros s0 t0 sig0 evs s id now signal s' Hreach Est Hfr Hnd Hr Hstep.
  apply reachable_Inv in Hreach.
  destruct (start_granted t0 sig0 s0 Hreach Est) as (s1 & Hs1 & Hl1 & Hls & _).
  cbn [run] in Hr. rewrite Hs1 in Hr.
  assert (HI1 : Inv s1) by (eapply Inv_step; eassumption).
  assert (HI : Inv s) by (eapply Inv_run; eassumption).
  destruct (nondecreasing_snoc _ _ _ Hnd) as [Hnd1 Hlast].
  rewrite <- Hls in Hnd1.
  destruct (silence_window_bounds _ s1 s HI1 Hl1 Hfr Hnd1 Hr) as [Ha Hb].
  rewrite Hls in Ha, Hb.
  assert (Est' : state s = listening).
  { destruct (state s) eqn:E; try reflexivity;
      rewrite frame_needs_listening in Hstep; auto; try discriminate; congruence. }
  destruct (tick_listening s HI Est') as (k & Hk & Htick).
  pose proof (frame_id_pending _ _ _ _ _ Hstep _ Hk) as ->.
  destruct (Htick now signal) as (s1' & Hs1' & Hl' & _).
  rewrite Hstep in Hs1'. injection Hs1' as <-.
  rewrite Hl'. destruct (loud (sample signal)); lia.
Qed.

(** A loud tick followed by a quiet one. *)
Lemma silence_window_instance :
  run (press 0 :: [Frame 1 100 voice]) init =
    Some (state_after [press 0; Frame 1 100 voice]) /\
  lastSoundTimeRef (state_after [press 0; Frame 1 100 voice; Frame 2 900 []])
    <= 900.
Proof.
  split; [vm_compute; reflexivity|].
  apply (silence_window_never_goes_back init 0 [] [Frame 1 100 voice]
           (state_after [press 0; Frame 1 100 voice]) 2%nat 900 []).
  - exists []. reflexivity.
  - reflexivity.
  - reflexivity.
  - vm_compute. reflexivity.
  - vm_compute. reflexivity.
  - vm_compute. reflexivity.
Defined.

(** ** What a listening phase starts from *)




(** ** The mode held by the closures of [handleStop] *)

Lemma take_task_In p ts : forall t rest,
  take_task p ts = Some (t, rest) ->
  In t ts /\ forall x, In x rest -> In x ts.
Proof.
  induction ts as [|a ts IH]; cbn; intros t rest H; [discriminate|].
  destruct (p a).
  - injection H as <- <-. auto.
  - destruct (take_task p ts) as [[t' rest']|]; [|discriminate].
    injection H as <- <-. destruct (IH _ _ eq_refl) as [H1 H2].
    split; [auto|]. intros x [<-|Hx]; auto.
Qed.

Lemma logs_with_refl m0 s : logs_with m0 s s.
Proof. exists []. split; [reflexivity|]. intros b m []. Qed.

Lemma logs_with_trans m0 s1 s2 s3 :
  logs_with m0 s1 s2 -> logs_with m0 s2 s3 -> logs_with m0 s1 s3.
Proof.
  intros (l1 & H1 & A1) (l2 & H2 & A2). exists (l2 ++ l1).
  split; [now rewrite H2, H1, app_assoc|].
  intros b m Hin. apply in_app_or in Hin as [Hin|Hin]; eauto.
Qed.

Lemma logs_with_other m0 s s' l :
  effects s' = l ++ effects s ->
  (forall b m, ~ In (AnalyzeAudio b m) l) -> logs_with m0 s s'.
Proof.
  intros H Hn. exists l. split; [assumption|].
  intros b m Hin. destruct (Hn _ _ Hin).
Qed.

Ltac no_analysis :=
  let b := fresh in let m := fresh in let H := fresh in
  intros b m H; cbn in H;
  repeat match goal with
         | H : _ \/ _ |- _ => destruct H as [H|H]
         end;
  solve [discriminate | contradiction].

Lemma stopRecording_mode m0 s :
  session_mode m0 s ->
  session_mode m0 (stopRecording s) /\ logs_with m0 s (stopRecording s).
Proof.
  intros [Hr Ht]. unfold stopRecording, session_mode.
  break_state s; cbn in *.
  destruct mr as [[[] om]|]; cbn.
  all: destruct af as [[|k]|]; cbn; destruct stm as [[|j]|]; cbn.
  all: split; [split|].
  all: try (intros r Hx; injection Hx as <-; apply (Hr _ eq_refl)).
  all: try assumption.
  all: try (intros t m Hin Hm; apply in_app_or in Hin as [Hin|[<-|[]]];
            [eauto | injection Hm as <-; apply (Hr _ eq_refl)]).
  all: try (intros r Hx; discriminate).
  all: first [ apply (logs_with_other _ _ _ []); [reflexivity|no_analysis]
             | apply (logs_with_other _ _ _ [RecorderStop]);
               [reflexivity|no_analysis] ].
Qed.

Lemma session_mode_same m0 s s' :
  mediaRecorderRef s' = mediaRecorderRef s -> tasks s' = tasks s ->
  session_mode m0 s -> session_mode m0 s'.
Proof. intros H1 H2 [Hr Ht]. split; rewrite ?H1, ?H2; assumption. Qed.

Lemma checkSilence_mode m0 now signal s :
  session_mode m0 s ->
  session_mode m0 (checkSilence now signal s) /\
  logs_with m0 s (checkSilence now signal s).
Proof.
  intros Hm. unfold checkSilence.
  destruct (analyserRef s); [|split; [assumption|apply logs_with_refl]].
  destruct (loud _); destruct (_ >? _).
  - destruct (stopRecording_mode m0 (set_lastSoundTimeRef now s)) as [H1 H2].
    + eapply session_mode_same; [| |exact Hm]; reflexivity.
    + split; [assumption|].
      eapply logs_with_trans; [|exact H2].
      apply (logs_with_other _ _ _ []); [reflexivity|no_analysis].
  - split; [eapply session_mode_same; [| |exact Hm]; reflexivity|].
    apply (logs_with_other _ _ _ []); [reflexivity|no_analysis].
  - now apply stopRecording_mode.
  - split; [eapply session_mode_same; [| |exact Hm]; reflexivity|].
    apply (logs_with_other _ _ _ []); [reflexivity|no_analysis].
Qed.

Lemma stopRecording_start_calls s :
  start_calls (stopRecording s) = start_calls s.
Proof.
  unfold start_calls, count, stopRecording. break_state s. cbn.
  destruct mr as [[[] om]|]; cbn; destruct af as [[|k]|]; cbn;
    destruct stm as [[|j]|]; reflexivity.
Qed.

Lemma checkSilence_start_calls now signal s :
  start_calls (checkSilence now signal s) = start_calls s.
Proof.
  unfold checkSilence. destruct (analyserRef s); [|reflexivity].
  destruct (loud _); destruct (_ >? _);
    rewrite ?stopRecording_start_calls; reflexivity.
Qed.

Lemma startListening_start_calls o now signal s :
  start_calls (startListening o now signal s) =
  match o with MicGranted => S (start_calls s) | _ => start_calls s end.
Proof.
  unfold startListening.
  pose proof (initWebAudio_effects (is_ResumeRejected o) s) as Hi.
  destruct o; cbn [is_ResumeRejected] in *.
  1: { unfold initWebAudio in *. destruct (audioContextRef s); cbn;
       unfold start_calls, count; cbn; reflexivity. }
  all: destruct (initWebAudio false s) as [s1|s1] eqn:Hw;
    [|unfold initWebAudio in Hw; discriminate].
  all: cbn [bind try_catch initAudio getUserMedia].
  1-2: unfold start_calls, count; cbn; now rewrite Hi.
  unfold beginCapture. rewrite checkSilence_start_calls.
  unfold start_calls, count. cbn. now rewrite Hi.
Qed.

Lemma startListening_not_granted m0 o now signal s :
  o <> MicGranted -> session_mode m0 s ->
  session_mode m0 (startListening o now signal s) /\
  logs_with m0 s (startListening o now signal s).
Proof.
  intros Ho Hm. break_state s.
  destruct o; try congruence; unfold startListening, initWebAudio; cbn.
  all: destruct ac; cbn; try destruct an; cbn.
  all: split; [eapply session_mode_same; [| |exact Hm]; reflexivity|].
  all: apply (logs_with_other _ _ _ [Alert "Microphone access required."]);
       [reflexivity|no_analysis].
Qed.

Lemma session_mode_step m0 e s s' :
  step e s = Some s' -> start_calls s' = start_calls s ->
  session_mode m0 s ->
  session_mode m0 s' /\ logs_with m0 s s'.
Proof.
  intros Hs Hsc Hm.
  destruct e as [o now signal | id now signal | data | ok | out | out | out |];
    cbn [step] in Hs.
  - injection Hs as <-. unfold onClick in *.
    destruct (state s); try now apply stopRecording_mode.
    destruct o; try (apply startListening_not_granted; [discriminate|assumption]).
    rewrite startListening_start_calls in Hsc. lia.
  - destruct (existsb _ _); [|discriminate]. injection Hs as <-.
    destruct (checkSilence_mode m0 now signal
      (set_frames (filter (fun i => negb (Nat.eqb i id)) (frames s)) s))
      as [H1 H2].
    + eapply session_mode_same; [| |exact Hm]; reflexivity.
    + split; [assumption|].
      eapply logs_with_trans; [|exact H2].
      apply (logs_with_other _ _ _ []); [reflexivity|no_analysis].
  - destruct (take_task _ _) as [[[] rest]|] eqn:Ht; try discriminate.
    injection Hs as <-. destruct (take_task_In _ _ _ _ Ht) as [Hin Hrest].
    destruct Hm as [Hr Hk].
    assert (mode = m0) as -> by (eapply Hk; [exact Hin|reflexivity]).
    split.
    + split.
      * intros r Hx. apply Hr. destruct data; exact Hx.
      * intros t m Hi Htm.
        assert (Hi' : In t (rest ++ [TReader
                   (List.concat (audioChunksRef
                      (handleDataAvailable data (set_tasks rest s)))) m0])).
        { destruct data; exact Hi. }
        apply in_app_or in Hi' as [Hi'|[<-|[]]].
        -- apply (Hk t m); [apply Hrest; exact Hi'|exact Htm].
        -- now injection Htm as <-.
    + apply (logs_with_other _ _ _ []); [destruct data; reflexivity|no_analysis].
  - destruct (take_task _ _) as [[[] rest]|] eqn:Ht; try discriminate.
    injection Hs as <-. destruct (take_task_In _ _ _ _ Ht) as [Hin Hrest].
    destruct Hm as [Hr Hk].
    assert (mode = m0) as -> by (eapply Hk; [exact Hin|reflexivity]).
    destruct ok; cbn.
    + split.
      * split; cbn; [exact Hr|].
        intros t m Hi Htm. apply in_app_or in Hi as [Hi|[<-|[]]];
          [intros; apply (Hk t m); [apply Hrest; assumption|assumption] | discriminate].
      * exists [AnalyzeAudio audioBlob m0]. split; [reflexivity|].
        intros b m [Hx|[]]. now injection Hx as _ <-.
    + split.
      * split; cbn; [exact Hr|]. intros t m Hi Htm. apply (Hk t m); [apply Hrest; assumption|assumption].
      * apply (logs_with_other _ _ _ []); [reflexivity|no_analysis].
  - destruct (take_task _ _) as [[t0 rest]|] eqn:Ht; try discriminate.
    injection Hs as <-. destruct (take_task_In _ _ _ _ Ht) as [Hin Hrest].
    destruct Hm as [Hr Hk].
    destruct out as [[em wi [br|]]|]; cbn.
    all: split; [split; cbn; [exact Hr|]|].
    all: try (intros t m Hi Htm; apply in_app_or in Hi as [Hi|[<-|[]]];
              [intros; apply (Hk t m); [apply Hrest; assumption|assumption] | discriminate]).
    all: try (intros t m Hi Htm; apply (Hk t m); [apply Hrest; assumption|assumption]).
    + apply (logs_with_other _ _ _
               [GenerateSpeech wi; StartBreathing br; PlayAmbient em]);
        [reflexivity|no_analysis].
    + apply (logs_with_other _ _ _ [GenerateSpeech wi; PlayAmbient em]);
        [reflexivity|no_analysis].
    + apply (logs_with_other _ _ _
               [Alert "Could not connect to Zen Master."; ConsoleError]);
        [reflexivity|no_analysis].
  - destruct (take_task _ _) as [[t0 rest]|] eqn:Ht; try discriminate.
    injection Hs as <-. destruct (take_task_In _ _ _ _ Ht) as [Hin Hrest].
    destruct Hm as [Hr Hk].
    destruct out as [r|]; unfold afterSynthesize; cbn.
    + destruct (audioContextRef s), (analyserRef s); cbn.
      all: split; [split; cbn; [exact Hr|]|].
      all: try (intros t m Hi Htm; apply in_app_or in Hi as [Hi|[<-|[]]];
                [intros; apply (Hk t m); [apply Hrest; assumption|assumption] | discriminate]).
      all: try (intros t m Hi Htm; apply (Hk t m); [apply Hrest; assumption|assumption]).
      all: apply (logs_with_other _ _ _ []); [reflexivity|no_analysis].
    + split; [split; cbn; [exact Hr|]|].
      * intros t m Hi Htm; apply (Hk t m); [apply Hrest; assumption|assumption].
      * apply (logs_with_other _ _ _
                 [Alert "Could not connect to Zen Master."; ConsoleError]);
          [reflexivity|no_analysis].
  - destruct (take_task _ _) as [[t0 rest]|] eqn:Ht; try discriminate.
    injection Hs as <-. destruct (take_task_In _ _ _ _ Ht) as [Hin Hrest].
    destruct Hm as [Hr Hk].
    destruct out as [r|]; cbn.
    all: split; [split; cbn; [exact Hr|]|].
    all: try (intros t m Hi Htm; apply in_app_or in Hi as [Hi|[<-|[]]];
              [intros; apply (Hk t m); [apply Hrest; assumption|assumption] | discriminate]).
    all: try (intros t m Hi Htm; apply (Hk t m); [apply Hrest; assumption|assumption]).
    + apply (logs_with_other _ _ _ [SourceStart r]); [reflexivity|no_analysis].
    + apply (logs_with_other _ _ _
               [Alert "Could not connect to Zen Master."; ConsoleError]);
        [reflexivity|no_analysis].
  - destruct (take_task _ _) as [[t0 rest]|] eqn:Ht; try discriminate.
    injection Hs as <-. destruct (take_task_In _ _ _ _ Ht) as [Hin Hrest].
    destruct Hm as [Hr Hk].
    split; [split; cbn; [exact Hr|]|].
    + intros t m Hi Htm; apply (Hk t m); [apply Hrest; assumption|assumption].
    + apply (logs_with_other _ _ _ []); [reflexivity|no_analysis].
Qed.

(** ** The calls of a cycle *)

Lemma step_start_calls e s s' :
  state s <> idle -> step e s = Some s' -> start_calls s' = start_calls s.
Proof.
  intros Hni Hs.
  destruct e as [o now signal | id now signal | data | ok | out | out | out |];
    cbn [step] in Hs.
  - injection Hs as <-. unfold onClick.
    destruct (state s); try congruence; apply stopRecording_start_calls.
  - destruct (existsb _ _); [|discriminate]. injection Hs as <-.
    now rewrite checkSilence_start_calls.
  - destruct (take_task _ _) as [[[] rest]|]; try discriminate.
    injection Hs as <-. destruct data; reflexivity.
  - destruct (take_task _ _) as [[[] rest]|]; try discriminate.
    injection Hs as <-. destruct ok; reflexivity.
  - destruct (take_task _ _) as [[t rest]|]; try discriminate.
    injection Hs as <-. destruct out as [[em wi [br|]]|]; reflexivity.
  - destruct (take_task _ _) as [[t rest]|]; try discriminate.
    injection Hs as <-. destruct out as [r|]; unfold afterSynthesize; cbn;
      [destruct (audioContextRef s), (analyserRef s)|]; reflexivity.
  - destruct (take_task _ _) as [[t rest]|]; try discriminate.
    injection Hs as <-. destruct out; reflexivity.
  - destruct (take_task _ _) as [[t rest]|]; try discriminate.
    injection Hs as <-. reflexivity.
Qed.

Lemma session_mode_run m0 evs : forall s s',
  run evs s = Some s' -> start_calls s' = start_calls s ->
  session_mode m0 s ->
  session_mode m0 s' /\ logs_with m0 s s'.
Proof.
  induction evs as [|e evs IH]; cbn [run]; intros s s' Hr Hsc Hm.
  - injection Hr as <-. split; [assumption|apply logs_with_refl].
  - destruct (step e s) as [s1|] eqn:Hs; [|discriminate].
    pose proof (grows_count is_RecorderStart _ _ (step_grows _ _ _ Hs)) as H1.
    pose proof (grows_count is_RecorderStart _ _ (run_grows _ _ _ Hr)) as H2.
    fold (start_calls s) in H1. fold (start_calls s1) in H1, H2.
    fold (start_calls s') in H2.
    destruct (session_mode_step m0 e s s1 Hs) as [Hm1 Hl1]; [lia|assumption|].
    destruct (IH s1 s' Hr) as [Hm' Hl']; [lia|assumption|].
    split; [assumption|]. eapply logs_with_trans; eassumption.
Qed.

Lemma start_granted_mode now signal s :
  state s = idle -> tasks s = [] ->
  session_mode (culturalMode s) (startListening MicGranted now signal s).
Proof.
  intros Est Htk. unfold startListening.
  pose proof (initWebAudio_effects false s) as Hi. cbn [is_ResumeRejected].
  assert (Hw : exists s1, initWebAudio false s = Normal s1 /\
                 culturalMode s1 = culturalMode s /\ tasks s1 = []).
  { unfold initWebAudio. break_state s. cbn in *. subst.
    destruct ac, an; cbn; eexists; repeat split. }
  destruct Hw as (s1 & -> & Hcm & Htk1).
  cbn [bind try_catch initAudio getUserMedia]. unfold beginCapture.
  match goal with |- session_mode _ (checkSilence _ _ ?t) =>
    apply (checkSilence_mode _ now signal t) end.
  split; cbn.
  - intros r Hx. injection Hx as <-. cbn. assumption.
  - rewrite Htk1. intros t m [].
Qed.

Lemma capture_start_calls listen : forall a p s s',
  forallb capture_event listen = true -> Inv s -> capturing a p s ->
  run listen s = Some s' -> start_calls s' = start_calls s.
Proof.
  induction listen as [|e evs IH]; intros a p s s' Hev HI Hc Hr.
  - cbn in Hr. now injection Hr as <-.
  - cbn [forallb] in Hev. apply andb_prop in Hev as [He Hev].
    cbn [run] in Hr. destruct (step e s) as [s1|] eqn:Hs; [|discriminate].
    rewrite (IH a p s1 s' Hev (Inv_step _ _ _ HI Hs)
               (capturing_step _ _ _ _ _ He HI Hc Hs) Hr).
    apply (step_start_calls e s s1); [|assumption].
    destruct Hc as (_ & _ & _ & _ & [Hl | [Hp _]]); congruence.
Qed.

(** The mode of the stop task at the end of capture is the mode the
    component had when the session started. *)
Lemma capture_phase_mode t0 sig0 listen s0 s1 m :
  Inv s0 -> state s0 = idle ->
  forallb capture_event listen = true ->
  run (Click MicGranted t0 sig0 :: listen) s0 = Some s1 ->
  tasks s1 = [TRecorderStop m] ->
  m = culturalMode s0.
Proof.
  intros HI Est Hev Hr Hm.
  destruct (start_granted t0 sig0 s0 HI Est)
    as (s & Hs & Hl & _ & Hz & Hch & Ha & Hpb & _).
  cbn [run] in Hr. rewrite Hs in Hr.
  assert (HIs : Inv s) by (eapply Inv_step; eassumption).
  assert (Hc : capturing (alerts s0) (playbacks s0) s) by (repeat split; auto).
  pose proof (capture_start_calls listen _ _ s s1 Hev HIs Hc Hr) as Hsc.
  assert (Hsm : session_mode (culturalMode s0) s).
  { cbn in Hs. unfold onClick in Hs. rewrite Est in Hs. injection Hs as <-.
    apply start_granted_mode; [assumption|].
    pose proof (inv_phase _ HI) as Hph. unfold phase_inv in Hph.
    rewrite Est in Hph. tauto. }
  destruct (session_mode_run _ listen s s1 Hr Hsc Hsm) as [[_ Hk] _].
  apply (Hk (TRecorderStop m) m); [rewrite Hm; now left | reflexivity].
Qed.


Lemma decode_failure_chain data analysis speech m s1 :
  Inv s1 -> state s1 = processing -> tasks s1 = [TRecorderStop m] ->
  audioChunksRef s1 = [] ->
  busy_run [RecorderStopped data; LoadEnd true; AnalyzeSettled (Some analysis);
            SynthesizeSettled (Some speech)] s1 = true /\
  exists s2,
    run ([RecorderStopped data; LoadEnd true; AnalyzeSettled (Some analysis);
          SynthesizeSettled (Some speech)] ++ [DecodeSettled None]) s1
      = Some s2 /\
    state s2 = idle /\ alerts s2 = S (alerts s1) /\
    playbacks s2 = playbacks s1 /\ tasks s2 = [] /\ frames s2 = [] /\
    zenData s2 = Some analysis.
Proof.
  intros HI Hp Hm Hch.
  settle_chain HI Hp Hm Hch.
  destruct data, analysis as [em wi [br|]].
  all: split; [vm_compute; reflexivity|].
  all: eexists; split; [vm_compute; reflexivity|]; vm_compute; repeat split; auto.
Qed.

Lemma reader_failure_chain data m s1 :
  Inv s1 -> state s1 = processing -> tasks s1 = [TRecorderStop m] ->
  audioChunksRef s1 = [] ->
  busy_run [RecorderStopped data] s1 = true /\
  exists s2,
    run ([RecorderStopped data] ++ [LoadEnd false]) s1 = Some s2 /\
    state s2 = processing /\ effects s2 = effects s1 /\
    tasks s2 = [] /\ frames s2 = [].
Proof.
  intros HI Hp Hm Hch.
  settle_chain HI Hp Hm Hch.
  destruct data.
  all: split; [vm_compute; reflexivity|].
  all: eexists; split; [vm_compute; reflexivity|]; vm_compute; repeat split; auto.
Qed.

(** [processing] with nothing pending: only clicks are delivered, and they
    change nothing. *)
Lemma idle_wait_is_final evs : forall s s',
  Inv s -> busy s = true -> tasks s = [] ->
  run evs s = Some s' -> s' = s.
Proof.
  induction evs as [|e evs IH]; cbn [run]; intros s s' HI Hb Htk Hr.
  - now injection Hr as <-.
  - destruct (step e s) as [s1|] eqn:Hs; [|discriminate].
    assert (s1 = s) as ->.
    { destruct e as [o now signal | id now signal | | | | | |].
      - rewrite click_busy in Hs; auto. now injection Hs as <-.
      - rewrite frame_needs_listening in Hs; auto; [discriminate|].
        unfold busy in Hb. destruct (state s); discriminate.
      - unfold step in Hs. rewrite Htk in Hs. discriminate.
      - unfold step in Hs. rewrite Htk in Hs. discriminate.
      - unfold step in Hs. rewrite Htk in Hs. discriminate.
      - unfold step in Hs. rewrite Htk in Hs. discriminate.
      - unfold step in Hs. rewrite Htk in Hs. discriminate.
      - unfold step in Hs. rewrite Htk in Hs. discriminate. }
    now apply IH.
Qed.

Lemma start_granted_log t0 sig0 s0 :
  Inv s0 -> state s0 = idle ->
  effects (startListening MicGranted t0 sig0 s0) =
    StopAudio :: RecorderStart :: effects s0.
Proof.
  intros [Ht Hts Han Hau Hph Hc] Est.
  break_state s0; cbn in *; subst.
  unfold startListening, initWebAudio; cbn.
  destruct ac as [[]|], Han as [-> | ->]; unfold beginCapture, checkSilence; cbn.
  all: match goal with |- context [loud ?d] => destruct (loud d) end; cbn.
  all: rewrite ?Z.sub_diag; cbn; reflexivity.
Qed.

Lemma tick_listening_log id now signal s s' :
  Inv s -> state s = listening -> step (Frame id now signal) s = Some s' ->
  (state s' = listening /\ effects s' = effects s) \/
  (state s' = processing /\ effects s' = RecorderStop :: effects s).
Proof.
  intros HI Est Hs.
  destruct (tick_listening s HI Est) as (k & Hk & _).
  pose proof (frame_id_pending _ _ _ _ _ Hs _ Hk) as ->.
  rewrite (step_frame_single _ _ _ _ Hk) in Hs. injection Hs as <-.
  destruct HI as [Ht Hts Han Hau Hph Hc].
  destruct Hau as [Hac Hana]; [congruence|].
  unfold_obs. break_state s; cbn in *; subst.
  destruct Hph as (_ & Hda & _).
  unfold checkSilence; cbn.
  match goal with |- context [loud ?d] => destruct (loud d) end; cbn.
  all: match goal with |- context [?a >? ?b] => destruct (a >? b) end.
  all: unfold stopRecording; cbn.
  all: break_recorder; cbn in *; try discriminate.
  all: destruct af as [[|j]|]; cbn; auto.
Qed.

Lemma stop_click_log o now signal s s' :
  Inv s -> state s = listening -> step (Click o now signal) s = Some s' ->
  effects s' = RecorderStop :: effects s.
Proof.
  intros [Ht Hts Han Hau Hph Hc] Est Hs.
  cbn in Hs. unfold onClick in Hs. rewrite Est in Hs. injection Hs as <-.
  unfold_obs. break_state s; cbn in *; subst.
  destruct Hph as (_ & Hda & _).
  unfold stopRecording; cbn.
  break_recorder; cbn in *; try discriminate.
  all: destruct af as [[|j]|]; cbn; auto.
Qed.

Lemma capture_log_run e0 listen : forall a p s s',
  forallb capture_event listen = true -> Inv s -> capturing a p s ->
  capture_log e0 s -> run listen s = Some s' -> capture_log e0 s'.
Proof.
  induction listen as [|e evs IH]; intros a p s s' Hev HI Hc Hl Hr.
  - cbn in Hr. now injection Hr as <-.
  - cbn [forallb] in Hev. apply andb_prop in Hev as [He Hev].
    cbn [run] in Hr. destruct (step e s) as [s1|] eqn:Hs; [|discriminate].
    apply (IH a p s1 s' Hev (Inv_step _ _ _ HI Hs)
             (capturing_step _ _ _ _ _ He HI Hc Hs)); [|assumption].
    destruct Hl as [[Hst Hef] | [Hst Hef]].
    + destruct e as [o now signal | id now signal | | | | | |]; try discriminate.
      * right. rewrite (stop_click_log _ _ _ _ _ HI Hst Hs), Hef.
        destruct (stop_click_listening o now signal s HI Hst) as (s2 & Hs2 & Hp & _).
        rewrite Hs in Hs2. injection Hs2 as <-. auto.
      * destruct (tick_listening_log _ _ _ _ _ HI Hst Hs) as [[H1 H2]|[H1 H2]];
          [left | right]; rewrite H2, Hef; auto.
    + destruct e as [o now signal | id now signal | | | | | |]; try discriminate.
      * rewrite click_busy in Hs; auto; [|unfold busy; now rewrite Hst].
        injection Hs as <-. right. auto.
      * rewrite frame_needs_listening in Hs; auto; [discriminate|congruence].
Qed.

Section CycleEffects.

Variables (s0 s1 : State) (t0 : Z) (sig0 : list Z) (listen : list Event).
Hypothesis s0_reachable : reachable s0.
Hypothesis s0_idle : state s0 = idle.
Hypothesis listen_events : forallb capture_event listen = true.
Hypothesis listen_run :
  run (Click MicGranted t0 sig0 :: listen) s0 = Some s1.
Hypothesis capture_over : state s1 = processing.

Lemma after_capture_log :
  Inv s1 /\ tasks s1 = [TRecorderStop (culturalMode s0)] /\
  alerts s1 = alerts s0 /\ playbacks s1 = playbacks s0 /\
  zenData s1 = None /\ audioChunksRef s1 = [] /\
  effects s1 = RecorderStop :: StopAudio :: RecorderStart :: effects s0.
Proof.
  pose proof (reachable_Inv _ s0_reachable) as HI0.
  destruct (capture_phase t0 sig0 listen s0 s1 HI0 s0_idle listen_events
              listen_run capture_over)
    as (HI1 & (m & Hm) & Ha & Hpb & Hz & Hch).
  pose proof (capture_phase_mode _ _ _ _ _ _ HI0 s0_idle listen_events
                listen_run Hm) as ->.
  do 6 (split; [assumption|]).
  destruct (start_granted t0 sig0 s0 HI0 s0_idle)
    as (s & Hs & Hl & _ & Hz' & Hch' & Ha' & Hpb' & _).
  pose proof listen_run as Hr. cbn [run] in Hr. rewrite Hs in Hr.
  assert (HIs : Inv s) by exact (Inv_step _ _ _ HI0 Hs).
  assert (Hc : capturing (alerts s0) (playbacks s0) s) by (repeat split; auto).
  assert (Hlog : capture_log (effects s0) s).
  { left. split; [assumption|].
    cbn in Hs. unfold onClick in Hs. rewrite s0_idle in Hs.
    injection Hs as <-. now apply start_granted_log. }
  destruct (capture_log_run _ listen _ _ s s1 listen_events HIs Hc Hlog Hr)
    as [[Hst _] | [_ Hef]]; [congruence | assumption].
Qed.


(** X12. When the speech cannot be decoded the session leaves [speaking] for
    [idle] with one alert and no playback; the analysis stays stored, and
    nothing is pending. *)
Theorem decode_failure_ends_idle_with_the_analysis_stored :
  forall pre data analysis speech,
    filter not_Click pre =
      [RecorderStopped data; LoadEnd true; AnalyzeSettled (Some analysis);
       SynthesizeSettled (Some speech)] ->
    exists s2,
      run (pre ++ [DecodeSettled None]) s1 = Some s2 /\
      state s2 = idle /\ alerts s2 = S (alerts s0) /\
      playbacks s2 = playbacks s0 /\ zenData s2 = Some analysis /\
      tasks s2 = [] /\ frames s2 = [].
Proof.
  intros pre data analysis speech Hpre.
  destruct after_capture_log as (HI1 & Hm & Ha & Hpb & _ & Hch & _).
  destruct (decode_failure_chain data analysis speech _ s1
              HI1 capture_over Hm Hch)
    as (Hb & s2 & Hr2 & Hst & Ha2 & Hp2 & Ht2 & Hf2 & Hz2).
  exists s2. rewrite (run_with_clicks _ _ _ _ HI1 Hpre Hb).
  repeat split; auto; congruence.
Qed.

(** X13. When the file reader ends without a result, [onloadend] throws
    before its [try]: nothing is called, and the session stays [processing]
    for good, no event changing the state any more. *)
Theorem reader_failure_leaves_the_session_processing :
  forall pre data,
    filter not_Click pre = [RecorderStopped data] ->
    exists s2,
      run (pre ++ [LoadEnd false]) s1 = Some s2 /\
      state s2 = processing /\ effects s2 = effects s1 /\
      forall evs s3, run evs s2 = Some s3 -> s3 = s2.
Proof.
  intros pre data Hpre.
  destruct after_capture_log as (HI1 & Hm & _ & _ & _ & Hch & _).
  destruct (reader_failure_chain data _ s1 HI1 capture_over Hm Hch)
    as (Hb & s2 & Hr2 & Hst & Hef & Ht2 & Hf2).
  exists s2. rewrite (run_with_clicks _ _ _ _ HI1 Hpre Hb).
  repeat split; auto.
  intros evs s3 Hr3.
  apply (idle_wait_is_final evs s2 s3); auto.
  - eapply Inv_run; [exact HI1|exact Hr2].
  - unfold busy. now rewrite Hst.
Qed.

End CycleEffects.


(** A cycle from [init] whose speech cannot be decoded. *)
Lemma decode_failure_instance :
  run capture init = Some (state_after capture) /\
  exists s2,
    run ([RecorderStopped chunk_a; LoadEnd true; AnalyzeSettled (Some calm);
          SynthesizeSettled (Some speech)] ++ [DecodeSettled None])
      (state_after capture) = Some s2 /\
    state s2 = idle /\ alerts s2 = S (alerts init) /\
    playbacks s2 = playbacks init /\ zenData s2 = Some calm /\
    tasks s2 = [] /\ frames s2 = [].
Proof.
  split; [vm_compute; reflexivity|].
  apply (decode_failure_ends_idle_with_the_analysis_stored
           init (state_after capture) 0 [] [press 500])
    with (data := chunk_a) (speech := speech).
  - exists []. reflexivity.
  - reflexivity.
  - reflexivity.
  - vm_compute. reflexivity.
  - vm_compute. reflexivity.
  - vm_compute. reflexivity.
Defined.

(** A cycle from [init] whose reader fails. *)
Lemma reader_failure_instance :
  run capture init = Some (state_after capture) /\
  exists s2,
    run ([RecorderStopped chunk_a] ++ [LoadEnd false]) (state_after capture)
      = Some s2 /\
    state s2 = processing /\ effects s2 = effects (state_after capture) /\
    forall evs s3, run evs s2 = Some s3 -> s3 = s2.
Proof.
  split; [vm_compute; reflexivity|].
  apply (reader_failure_leaves_the_session_processing
           init (state_after capture) 0 [] [press 500])
    with (data := chunk_a).
  - exists []. reflexivity.
  - reflexivity.
  - reflexivity.
  - vm_compute. reflexivity.
  - vm_compute. reflexivity.
  - vm_compute. reflexivity.
Defined.

(** ** Numbers as strings *)

Lemma dec_prefix_of_digits d :
  dec_prefix (DecimalString.NilEmpty.string_of_uint d) = d.
Proof.
  induction d; cbn; rewrite ?IHd; reflexivity.
Qed.

Lemma trimStart_plain c r :
  ws1 c = false -> byte_in c [194; 225; 226; 227; 239]%nat = false ->
  trimStart (String c r) = String c r.
Proof.
  intros H1 H2. unfold byte_in in H2. cbn [existsb] in H2.
  repeat (apply orb_false_elim in H2 as [? H2]).
  cbn [trimStart]. rewrite H1.
  destruct r as [|c2 [|c3 r3]]; [reflexivity| |].
  all: unfold ws2, ws3, byte_in; cbn [existsb].
  all: repeat match goal with H : Nat.eqb _ _ = false |- _ => rewrite H end.
  all: reflexivity.
Qed.

(** What [parseInt] does once white space and sign are gone, on digits. *)
Lemma digits_are_read sign d :
  d <> Decimal.Nil ->
  match DecimalString.NilEmpty.string_of_uint d with
  | String c1 (String c2 r) =>
      if byte_in c1 [48]%nat && byte_in c2 [120; 88]%nat then
        match hex_prefix r with
        | Hexadecimal.Nil => None
        | h => Some (sign * Z.of_hex_uint h)
        end
      else
        match dec_prefix (DecimalString.NilEmpty.string_of_uint d) with
        | Decimal.Nil => None
        | d' => Some (sign * Z.of_uint d')
        end
  | _ =>
      match dec_prefix (DecimalString.NilEmpty.string_of_uint d) with
      | Decimal.Nil => None
      | d' => Some (sign * Z.of_uint d')
      end
  end = Some (sign * Z.of_uint d).
Proof.
  intros Hd. rewrite dec_prefix_of_digits.
  assert (Hdec : match d with
                 | Decimal.Nil => None
                 | d' => Some (sign * Z.of_uint d')
                 end = Some (sign * Z.of_uint d)).
  { destruct d; congruence. }
  destruct d as [|d'|d'|d'|d'|d'|d'|d'|d'|d'|d']; [congruence|..].
  all: destruct d'; cbn [DecimalString.NilEmpty.string_of_uint]; exact Hdec.
Qed.

Lemma toString_nonneg_digits n :
  0 <= n ->
  exists d, d <> Decimal.Nil /\ Z.of_uint d = n /\
    toString n = DecimalString.NilEmpty.string_of_uint d.
Proof.
  intros Hn. unfold toString.
  pose proof (DecimalZ.of_to n) as Hof.
  destruct n as [|p|p]; [| |lia].
  - exists (Decimal.D0 Decimal.Nil). repeat split. discriminate.
  - exists (Pos.to_uint p). split; [apply DecimalPos.Unsigned.to_uint_nonnil|].
    split; [exact Hof|].
    cbn. unfold DecimalString.NilZero.string_of_uint.
    pose proof (DecimalPos.Unsigned.to_uint_nonnil p).
    destruct (Pos.to_uint p); congruence.
Qed.

Lemma digits_start_plain d :
  d <> Decimal.Nil ->
  exists c r, DecimalString.NilEmpty.string_of_uint d = String c r /\
    ws1 c = false /\ byte_in c [194; 225; 226; 227; 239]%nat = false /\
    byte_in c [45]%nat = false /\ byte_in c [43]%nat = false.
Proof.
  intros Hd. destruct d; [congruence|..]; cbn; eexists; eexists;
    repeat split.
Qed.

Lemma parseInt_toString n : 0 <= n -> parseInt (toString n) = Some n.
Proof.
  intros Hn.
  destruct (toString_nonneg_digits n Hn) as (d & Hd & Hof & ->).
  destruct (digits_start_plain d Hd) as (c & r & Hs & H1 & H2 & H3 & H4).
  pose proof (digits_are_read 1 d Hd) as Hread.
  unfold parseInt. rewrite Hs in *. rewrite (trimStart_plain c r H1 H2).
  rewrite H3, H4. rewrite Hread, Hof. f_equal. lia.
Qed.

Lemma toString_truthy n : 0 <= n -> truthy_string (Some (toString n)) = true.
Proof.
  intros Hn.
  destruct (toString_nonneg_digits n Hn) as (d & Hd & _ & ->).
  destruct (digits_start_plain d Hd) as (c & r & -> & _). reflexivity.
Qed.

(** ** [localStorage] *)

Lemma getItem_setItem_same key value st :
  getItem key (setItem key value st) = Some value.
Proof.
  induction st as [|[k v] st IH]; cbn.
  - now rewrite String.eqb_refl.
  - destruct (String.eqb k key) eqn:E; cbn; rewrite E; auto.
Qed.

Lemma getItem_setItem_other key key' value st :
  key' <> key -> getItem key (setItem key' value st) = getItem key st.
Proof.
  intros Hne.
  assert (Hf : String.eqb key' key = false) by now apply String.eqb_neq.
  induction st as [|[k v] st IH]; cbn.
  - now rewrite Hf.
  - destruct (String.eqb k key') eqn:E; cbn.
    + apply String.eqb_eq in E. subst k. now rewrite Hf.
    + now rewrite IH.
Qed.

(** ** The page *)

Lemma kept_by_session_same s s' :
  culturalMode s' = culturalMode s ->
  silenceTimerRef s' = silenceTimerRef s -> timers s' = timers s ->
  kept_by_session s s'.
Proof. intros H1 H2 H3. repeat split; auto. Qed.

Lemma kept_by_session_trans s1 s2 s3 :
  kept_by_session s1 s2 -> kept_by_session s2 s3 -> kept_by_session s1 s3.
Proof.
  intros (A1 & A2 & A3) (B1 & B2 & B3). repeat split; try congruence.
  intros H. rewrite B3, A3; auto. congruence.
Qed.

Lemma stopRecording_kept s : kept_by_session s (stopRecording s).
Proof.
  unfold kept_by_session, stopRecording. break_state s. cbn.
  destruct mr as [[[] om]|]; cbn; destruct af as [[|k]|]; cbn;
    destruct stm as [[|j]|]; cbn; repeat split; auto; discriminate.
Qed.

Lemma checkSilence_kept now signal s :
  kept_by_session s (checkSilence now signal s).
Proof.
  unfold checkSilence.
  destruct (analyserRef s); [|apply kept_by_session_same; reflexivity].
  destruct (loud _); destruct (_ >? _).
  all: try (apply kept_by_session_same; reflexivity).
  all: eapply kept_by_session_trans; [|apply stopRecording_kept].
  all: apply kept_by_session_same; reflexivity.
Qed.

Lemma initWebAudio_kept b s :
  match initWebAudio b s with
  | Normal s1 | Throw s1 => kept_by_session s s1
  end.
Proof.
  unfold initWebAudio. break_state s. cbn.
  destruct b, ac, an; cbn; apply kept_by_session_same; reflexivity.
Qed.

Lemma startListening_kept o now signal s :
  kept_by_session s (startListening o now signal s).
Proof.
  unfold startListening.
  pose proof (initWebAudio_kept (is_ResumeRejected o) s) as Hi.
  destruct (initWebAudio (is_ResumeRejected o) s) as [s1|s1];
    cbn [bind try_catch].
  2: { eapply kept_by_session_trans; [exact Hi|].
       apply kept_by_session_same; reflexivity. }
  destruct o; cbn [initAudio getUserMedia bind try_catch].
  2-3: eapply kept_by_session_trans; [exact Hi|];
       apply kept_by_session_same; reflexivity.
  all: eapply kept_by_session_trans; [exact Hi|].
  all: unfold beginCapture.
  all: eapply kept_by_session_trans; [|apply checkSilence_kept].
  all: apply kept_by_session_same; reflexivity.
Qed.

Lemma step_kept e s s' : step e s = Some s' -> kept_by_session s s'.
Proof.
  destruct e; cbn [step]; intros H.
  - injection H as <-. unfold onClick.
    destruct (state s); auto using startListening_kept, stopRecording_kept.
  - destruct (existsb _ _); [|discriminate]. injection H as <-.
    eapply kept_by_session_trans; [|apply checkSilence_kept].
    apply kept_by_session_same; reflexivity.
  - destruct (take_task _ _) as [[[] rest]|]; try discriminate.
    injection H as <-. destruct data; apply kept_by_session_same; reflexivity.
  - destruct (take_task _ _) as [[[] rest]|]; try discriminate.
    injection H as <-.
    destruct result_ok; apply kept_by_session_same; reflexivity.
  - destruct (take_task _ _) as [[t rest]|]; try discriminate.
    injection H as <-.
    destruct outcome as [[em wi [br|]]|];
      apply kept_by_session_same; reflexivity.
  - destruct (take_task _ _) as [[t rest]|]; try discriminate.
    injection H as <-.
    destruct outcome as [r|]; unfold afterSynthesize; cbn;
      [destruct (audioContextRef s), (analyserRef s)|];
      apply kept_by_session_same; reflexivity.
  - destruct (take_task _ _) as [[t rest]|]; try discriminate.
    injection H as <-.
    destruct outcome; apply kept_by_session_same; reflexivity.
  - destruct (take_task _ _) as [[t rest]|]; try discriminate.
    injection H as <-. apply kept_by_session_same; reflexivity.
Qed.

Lemma handleModeChange_cache mode items now p :
  cache_holds (Some (mode, now))
    (localStorage (handleModeChange mode items now p)).
Proof.
  cbn. split.
  - rewrite getItem_setItem_other by discriminate.
    apply getItem_setItem_same.
  - apply getItem_setItem_same.
Qed.

Lemma page_run_cache evs : forall p p' c,
  page_run evs p = Some p' -> cache_holds c (localStorage p) ->
  cache_holds
    (fold_left (fun acc e => match e with
                             | ModeChange mode _ now => Some (mode, now)
                             | _ => acc
                             end) evs c)
    (localStorage p').
Proof.
  induction evs as [|e evs IH]; cbn [page_run fold_left]; intros p p' c Hr Hc.
  - now injection Hr as <-.
  - destruct (page_step e p) as [p1|] eqn:Hs; [|discriminate].
    apply (IH p1 p' _ Hr).
    destruct e as [e' | mode items now | id]; cbn in Hs.
    + destruct (step e' (session p)); [|discriminate]. now injection Hs as <-.
    + injection Hs as <-. apply handleModeChange_cache.
    + destruct (existsb _ _); [|discriminate]. now injection Hs as <-.
Qed.

Lemma mount_reads_cache now mode T st :
  cache_holds (Some (mode, T)) st -> mode <> EmptyString -> 0 <= T ->
  culturalMode (session (mount now st)) =
  if now <? T + DAY then mode else "Universal"%string.
Proof.
  intros [Hm He] Hne HT. unfold mount, loadCache. cbn [localStorage].
  rewrite Hm, He.
  assert (HD : 0 <= T + DAY) by (unfold DAY; lia).
  rewrite (toString_truthy _ HD), (parseInt_toString _ HD).
  destruct mode as [|c m]; [congruence|]. cbn [truthy_string andb].
  destruct (now <? T + DAY); reflexivity.
Qed.

(** X14. The mode of the last change is found again by a page mounted less
    than 24 hours after that change, and is dropped for ['Universal'] from
    24 hours on: the expiry written by [handleModeChange] is read back by
    [parseInt] as the number it was. *)
Theorem cache_restores_the_last_mode_for_a_day :
  forall evs p p' mode T now,
    page_run evs p = Some p' ->
    last_change evs = Some (mode, T) ->
    mode <> EmptyString -> 0 <= T <= 8640000000000000 ->
    culturalMode (session (mount now (localStorage p'))) =
    if now <? T + DAY then mode else "Universal"%string.
Proof.
  intros evs p p' mode T now Hr Hlast Hne [HT _].
  apply mount_reads_cache; auto.
  pose proof (page_run_cache evs p p' None Hr I) as Hc.
  unfold last_change in Hlast. now rewrite Hlast in Hc.
Qed.

(** Mounted one millisecond before the expiry. *)
Lemma cache_instance :
  page_run [ModeChange "VN"%string ["non la"%string] 1000; OfSession (press 2000)]
    fresh_page =
    Some (page_after [ModeChange "VN"%string ["non la"%string] 1000;
                      OfSession (press 2000)]) /\
  culturalMode
    (session
       (mount 86400999
          (localStorage
             (page_after [ModeChange "VN"%string ["non la"%string] 1000;
                          OfSession (press 2000)])))) = "VN"%string.
Proof.
  split; [vm_compute; reflexivity|].
  apply (cache_restores_the_last_mode_for_a_day
           [ModeChange "VN"%string ["non la"%string] 1000; OfSession (press 2000)]
           fresh_page _ "VN"%string 1000 86400999).
  - vm_compute. reflexivity.
  - reflexivity.
  - discriminate.
  - lia.
Defined.

(** X15. Only a mode change writes [localStorage] or the mode: events of the
    voice session and toast timers leave both as they are. *)
Theorem session_events_leave_mode_and_cache :
  forall evs p p',
    page_run evs p = Some p' ->
    forallb (fun e => negb (is_ModeChange e)) evs = true ->
    localStorage p' = localStorage p /\
    culturalMode (session p') = culturalMode (session p).
Proof.
  induction evs as [|e evs IH]; cbn [page_run forallb]; intros p p' Hr Hev.
  - injection Hr as <-. auto.
  - apply andb_prop in Hev as [He Hev].
    destruct (page_step e p) as [p1|] eqn:Hs; [|discriminate].
    destruct (IH p1 p' Hr Hev) as [H1 H2]. rewrite H1, H2.
    destruct e as [e' | mode items now | id]; cbn in Hs; [|discriminate|].
    + destruct (step e' (session p)) as [a|] eqn:Hst; [|discriminate].
      injection Hs as <-. cbn. split; [reflexivity|].
      apply (step_kept _ _ _ Hst).
    + destruct (existsb _ _); [|discriminate]. injection Hs as <-. auto.
Qed.

(** The rest of a session after a mode change. *)
Lemma session_events_instance :
  page_run (skipn 2 change_during_capture) (page_after (firstn 2 change_during_capture)) =
    Some (page_after change_during_capture) /\
  culturalMode (session (page_after change_during_capture)) = "VN"%string.
Proof.
  split; [vm_compute; reflexivity|].
  apply (session_events_leave_mode_and_cache (skipn 2 change_during_capture)
           (page_after (firstn 2 change_during_capture))).
  - vm_compute. reflexivity.
  - reflexivity.
Defined.

(** X16. The toast names the first two of the items detected and ignores the
    others. *)
Theorem toast_names_at_most_two_items :
  forall mode items now p,
    toast (handleModeChange mode items now p) =
    toast (handleModeChange mode (firstn 2 items) now p).
Proof.
  intros mode items now p. cbn. f_equal. unfold toastText.
  destruct items as [|a [|b items]]; reflexivity.
Qed.

Lemma page_inv_mount now storage : page_inv (mount now storage).
Proof.
  unfold mount, loadCache. cbn [localStorage].
  destruct (_ && _); [destruct (getItem _ storage)|]; split; cbn; congruence.
Qed.

Lemma page_inv_step e p p' :
  page_inv p -> page_step e p = Some p' -> page_inv p'.
Proof.
  intros [Hs Ht] Hstep.
  destruct e as [e' | mode items now | id]; cbn in Hstep.
  - destruct (step e' (session p)) as [a|] eqn:Hst; [|discriminate].
    injection Hstep as <-. destruct (step_kept _ _ _ Hst) as (_ & H2 & H3).
    split; cbn; [congruence|]. rewrite (H3 Hs). exact Ht.
  - injection Hstep as <-. split; cbn; [assumption|].
    intros _. destruct (timers (session p)); discriminate.
  - destruct (existsb _ _); [|discriminate]. injection Hstep as <-.
    split; cbn; [assumption|congruence].
Qed.

(** X17. A toast on the screen always has a timer pending that will remove
    it, and an event of the voice session neither cancels a timer nor
    touches the toast. *)
Theorem shown_toast_has_a_pending_timer :
  forall p,
    page_reachable p ->
    (toast p <> None -> timers (session p) <> []) /\
    (forall e p', page_step (OfSession e) p = Some p' ->
       timers (session p') = timers (session p) /\ toast p' = toast p).
Proof.
  intros p (now & storage & evs & Hr).
  assert (HI : page_inv p).
  { revert Hr. generalize (page_inv_mount now storage).
    generalize (mount now storage).
    induction evs as [|e evs IH]; cbn [page_run]; intros q Hq Hr.
    - now injection Hr as <-.
    - destruct (page_step e q) as [q1|] eqn:Hs; [|discriminate].
      apply (IH q1); [eapply page_inv_step; eassumption | assumption]. }
  destruct HI as [Hs Ht]. split; [assumption|].
  intros e p' Hstep. cbn in Hstep.
  destruct (step e (session p)) as [a|] eqn:Hst; [|discriminate].
  injection Hstep as <-. destruct (step_kept _ _ _ Hst) as (_ & _ & H3).
  cbn. auto.
Qed.

(** The toast of a change made while listening. *)
Lemma shown_toast_instance :
  page_reachable (page_after change_during_capture) /\
  timers (session (page_after change_during_capture)) <> [].
Proof.
  assert (H : page_reachable (page_after change_during_capture)).
  { exists 0, [], change_during_capture. vm_compute. reflexivity. }
  split; [exact H|].
  apply (proj1 (shown_toast_has_a_pending_timer _ H)).
  vm_compute. discriminate.
Defined.

(** ** The mode of an analysis *)

Lemma start_granted_logs now signal s :
  state s = idle -> tasks s = [] ->
  logs_with (culturalMode s) s (startListening MicGranted now signal s).
Proof.
  intros Est Htk. unfold startListening. cbn [is_ResumeRejected].
  assert (Hw : exists s1, initWebAudio false s = Normal s1 /\
                 culturalMode s1 = culturalMode s /\ tasks s1 = [] /\
                 effects s1 = effects s).
  { unfold initWebAudio. break_state s. cbn in *. subst.
    destruct ac, an; cbn; eexists; repeat split. }
  destruct Hw as (s1 & -> & Hcm & Htk1 & Hef).
  cbn [bind try_catch initAudio getUserMedia]. unfold beginCapture.
  match goal with |- logs_with _ _ (checkSilence _ _ ?t) =>
    destruct (checkSilence_mode (culturalMode s) now signal t) as [_ Hl] end.
  - split; cbn.
    + intros r Hx. injection Hx as <-. cbn. assumption.
    + rewrite Htk1. intros t m [].
  - eapply logs_with_trans; [|exact Hl].
    apply (logs_with_other _ _ _ [StopAudio; RecorderStart]).
    + cbn. now rewrite Hef.
    + no_analysis.
Qed.

Lemma page_step_grows e p p' :
  page_step e p = Some p' -> grows (session p) (session p').
Proof.
  destruct e as [e' | mode items now | id]; cbn; intros H.
  - destruct (step e' (session p)) as [a|] eqn:Hs; [|discriminate].
    injection H as <-. exact (step_grows _ _ _ Hs).
  - injection H as <-. now exists [].
  - destruct (existsb _ _); [|discriminate]. injection H as <-. now exists [].
Qed.

Lemma page_run_grows evs : forall p p',
  page_run evs p = Some p' -> grows (session p) (session p').
Proof.
  induction evs as [|e evs IH]; cbn [page_run]; intros p p' H.
  - injection H as <-. apply grows_refl.
  - destruct (page_step e p) as [p1|] eqn:Hs; [|discriminate].
    eapply grows_trans; [exact (page_step_grows _ _ _ Hs) | exact (IH _ _ H)].
Qed.

Lemma page_step_mode m0 e p p' :
  page_step e p = Some p' ->
  start_calls (session p') = start_calls (session p) ->
  session_mode m0 (session p) ->
  session_mode m0 (session p') /\ logs_with m0 (session p) (session p').
Proof.
  destruct e as [e' | mode items now | id]; cbn; intros H Hsc Hm.
  - destruct (step e' (session p)) as [a|] eqn:Hs; [|discriminate].
    injection H as <-. exact (session_mode_step m0 _ _ _ Hs Hsc Hm).
  - injection H as <-. cbn. split.
    + eapply session_mode_same; [| |exact Hm]; reflexivity.
    + apply (logs_with_other _ _ _ []); [reflexivity|intros b m []].
  - destruct (existsb _ _); [|discriminate]. injection H as <-. cbn. split.
    + eapply session_mode_same; [| |exact Hm]; reflexivity.
    + apply (logs_with_other _ _ _ []); [reflexivity|intros b m []].
Qed.

Lemma page_run_mode m0 evs : forall p p',
  page_run evs p = Some p' ->
  start_calls (session p') = start_calls (session p) ->
  session_mode m0 (session p) ->
  session_mode m0 (session p') /\ logs_with m0 (session p) (session p').
Proof.
  induction evs as [|e evs IH]; cbn [page_run]; intros p p' Hr Hsc Hm.
  - injection Hr as <-. split; [assumption|apply logs_with_refl].
  - destruct (page_step e p) as [p1|] eqn:Hs; [|discriminate].
    pose proof (grows_count is_RecorderStart _ _ (page_step_grows _ _ _ Hs)) as H1.
    pose proof (grows_count is_RecorderStart _ _ (page_run_grows _ _ _ Hr)) as H2.
    fold (start_calls (session p)) in H1.
    fold (start_calls (session p1)) in H1, H2.
    fold (start_calls (session p')) in H2.
    destruct (page_step_mode m0 e p p1 Hs) as [Hm1 Hl1]; [lia|assumption|].
    destruct (IH p1 p' Hr) as [Hm2 Hl2]; [lia|assumption|].
    split; [assumption|]. eapply logs_with_trans; eassumption.
Qed.

(** X18. An utterance is analysed in the mode that was selected when its
    session started: a mode change made while listening or processing does
    not reach [analyzeAudio] before the next session. *)
Theorem analysis_uses_the_mode_selected_at_the_start :
  forall t0 sig0 evs p0 p,
    state (session p0) = idle -> tasks (session p0) = [] ->
    page_run (OfSession (Click MicGranted t0 sig0) :: evs) p0 = Some p ->
    start_calls (session p) = S (start_calls (session p0)) ->
    exists l,
      effects (session p) = l ++ effects (session p0) /\
      forall audio mode,
        In (AnalyzeAudio audio mode) l -> mode = culturalMode (session p0).
Proof.
  intros t0 sig0 evs p0 p Est Htk Hr Hsc.
  cbn [page_run page_step step] in Hr. unfold onClick in Hr.
  rewrite Est in Hr. cbn [session] in Hr.
  match type of Hr with page_run evs ?q = _ => set (p1 := q) in * end.
  assert (Hs1 : session p1 = startListening MicGranted t0 sig0 (session p0))
    by reflexivity.
  assert (Hc1 : start_calls (session p1) = S (start_calls (session p0))).
  { rewrite Hs1. apply (startListening_start_calls MicGranted). }
  destruct (page_run_mode (culturalMode (session p0)) evs p1 p Hr)
    as [_ Hl]; [lia| |].
  - rewrite Hs1. now apply start_granted_mode.
  - change (logs_with (culturalMode (session p0)) (session p0) (session p)).
    eapply logs_with_trans; [|exact Hl].
    rewrite Hs1. now apply start_granted_logs.
Qed.

(** A change to VN while listening: the analysis is asked in Universal. *)
Lemma mode_at_start_instance :
  page_run change_during_capture fresh_page =
    Some (page_after change_during_capture) /\
  culturalMode (session (page_after change_during_capture)) = "VN"%string /\
  exists l,
    effects (session (page_after change_during_capture)) =
      l ++ effects (session fresh_page) /\
    forall audio mode,
      In (AnalyzeAudio audio mode) l -> mode = "Universal"%string.
Proof.
  split; [vm_compute; reflexivity|].
  split; [vm_compute; reflexivity|].
  apply (analysis_uses_the_mode_selected_at_the_start 0 []
           (tl change_during_capture) fresh_page).
  - reflexivity.
  - reflexivity.
  - vm_compute. reflexivity.
  - vm_compute. reflexivity.
Defined.

(** ** The toast and its timers *)

Lemma page_step_keeps_timer id e p p' :
  silenceTimerRef (session p) = None ->
  is_timeout_of id e = false ->
  page_step e p = Some p' ->
  In id (timers (session p)) -> In id (timers (session p')).
Proof.
  intros Hst He Hs Hin.
  destruct e as [e' | mode items now | i]; cbn in Hs.
  - destruct (step e' (session p)) as [a|] eqn:Hst'; [|discriminate].
    injection Hs as <-. destruct (step_kept _ _ _ Hst') as (_ & _ & H3).
    cbn. now rewrite (H3 Hst).
  - injection Hs as <-. cbn. apply in_or_app. now left.
  - destruct (existsb _ _); [|discriminate]. injection Hs as <-. cbn.
    apply filter_In. split; [assumption|].
    cbn in He. rewrite Nat.eqb_sym in He. now rewrite He.
Qed.

(** X19. The timer set by a mode change is never cancelled: whatever
    happens after the change, it can still fire, and then it removes the
    toast that is shown, also the toast of a later change. *)
Theorem toast_timer_fires_whatever_came_after :
  forall p mode items now evs p1,
    page_reachable p ->
    page_run (ModeChange mode items now :: evs) p = Some p1 ->
    forallb (fun e => negb (is_timeout_of (S (nextTimeout p)) e)) evs = true ->
    exists p',
      page_step (ToastTimeout (S (nextTimeout p))) p1 = Some p' /\
      toast p' = None.
Proof.
  intros p mode items now evs p1 (t & st & evs0 & Hreach) Hr Hev.
  assert (HI : page_inv p).
  { revert Hreach. generalize (page_inv_mount t st). generalize (mount t st).
    induction evs0 as [|e evs0 IH]; cbn [page_run]; intros q Hq Hq'.
    - now injection Hq' as <-.
    - destruct (page_step e q) as [q1|] eqn:Hs; [|discriminate].
      apply (IH q1); [eapply page_inv_step; eassumption | assumption]. }
  cbn [page_run page_step] in Hr.
  set (id := S (nextTimeout p)) in *.
  assert (H1 : page_inv (handleModeChange mode items now p))
    by (eapply (page_inv_step (ModeChange mode items now)); [exact HI|reflexivity]).
  assert (H2 : In id (timers (session (handleModeChange mode items now p))))
    by (cbn; apply in_or_app; right; now left).
  assert (Hin : In id (timers (session p1))).
  { revert Hr H1 H2 Hev. generalize (handleModeChange mode items now p).
    induction evs as [|e evs IH]; cbn [page_run forallb]; intros q Hr Hq Hin Hev.
    - now injection Hr as <-.
    - apply andb_prop in Hev as [He Hev]. apply negb_true_iff in He.
      destruct (page_step e q) as [q1|] eqn:Hs; [|discriminate].
      apply (IH q1 Hr); [eapply page_inv_step; eassumption| |assumption].
      eapply page_step_keeps_timer; try eassumption. apply Hq. }
  cbn [page_step].
  assert (Hex : existsb (Nat.eqb id) (timers (session p1)) = true).
  { apply existsb_exists. exists id. split; [assumption|apply Nat.eqb_refl]. }
  rewrite Hex. eexists. split; reflexivity.
Qed.

(** The timer of the first of two changes. *)
Lemma toast_timer_instance :
  page_run [ModeChange "VN"%string [] 100; ModeChange "JP"%string [] 200] fresh_page =
    Some (page_after [ModeChange "VN"%string [] 100; ModeChange "JP"%string [] 200]) /\
  exists p',
    page_step (ToastTimeout 1)
      (page_after [ModeChange "VN"%string [] 100; ModeChange "JP"%string [] 200]) = Some p' /\
    toast p' = None.
Proof.
  split; [vm_compute; reflexivity|].
  apply (toast_timer_fires_whatever_came_after fresh_page "VN"%string [] 100
           [ModeChange "JP"%string [] 200]).
  - exists 0, [], []. reflexivity.
  - vm_compute. reflexivity.
  - reflexivity.
Defined.

(** ** What is rendered *)



